(** * purple-air: the extract/load pipeline of [gcp_extract_load.py]

    A shallow embedding of the single source file of the repository and
    the properties of its extract-transform-load pipeline.

    - JSON values (what [response.json()] returns) are the inductive type
      [json]; a Python [dict] with string keys is a [gmap string json].
    - The fallible, effectful Python code is written in the monad [M]:
      explicit passing of a [World] (the requests issued so far, the
      loguru log, the sleeps of the retry decorator, the BigQuery calls)
      with an exception as the other outcome.
    - Everything outside the program (the two HTTP APIs, the process
      environment, the warehouse) is a field of the class [Outside]. *)

From stdpp Require Import gmap strings list fin_maps pretty.

#[local] Set Warnings "-register-all".
#[local] Open Scope string_scope.
#[local] Open Scope Z_scope.
#[local] Open Scope list_scope.

(** ** Values *)

(** A parsed JSON document, as Python's [json] module builds it: [None],
    [bool], [int] (unbounded), [float] (a mantissa and a binary exponent;
    the pipeline only carries floats around), [str], [list] and [dict]. *)
Inductive json : Type :=
| JNull
| JBool (b : bool)
| JInt (z : Z)
| JFloat (m e : Z)
| JStr (s : string)
| JList (l : list json)
| JObj (o : gmap string json).

(** One reading of a channel, enriched: a FeedRecord of the spec. *)
Abbreviation feed := (gmap string json).

(** The exceptions the pipeline can meet. All of them derive from
    Python's [Exception]. *)
Inductive exn : Type :=
| TypeError
| KeyError (key : string)
| AttributeError
| RequestException      (* raised by [requests.get] itself *)
| HTTPError (status : Z) (* raised by [raise_for_status] *)
| JSONDecodeError       (* raised by [response.json()] *)
| GoogleAPIError.        (* raised by the BigQuery client *)

(** What [requests.get] returns: the status code and the body, [None]
    when the body is not a JSON document. *)
Record Response : Type := { status_code : Z; body : option json }.

(** The levels of the loguru logger the program uses. *)
Inductive level : Type := DEBUG | WARNING.

#[global] Instance level_eq_dec : EqDecision level.
Proof. solve_decision. Defined.

(** ** The world *)

Record World : Type := {
  requested : list string;               (* URLs given to [requests.get] *)
  log : list (level * string);           (* entries of the loguru logger *)
  slept : list Z;                        (* arguments of [time.sleep] *)
  bq_clients : nat;                      (* [bq.Client()] constructions *)
  bq_jobs : list (string * list feed)    (* load jobs: destination, rows *)
}.

(** The collaborators of the program, fixed for one run. *)
Class Outside : Type := {
  (** [requests.get(url)], given the URLs requested before it. *)
  http_get : list string → string → exn + Response;
  (** [os.environ.get(name)]. *)
  environ_get : string → option string;
  (** Python's [repr] of a float, a list or a dict. *)
  py_repr : json → string;
  (** [bq.Client()]: the error it raises, if any. *)
  bq_Client : option exn;
  (** [client.load_table_from_json(rows, destination, ...)] followed by
      [.result()]: the error raised, if any. *)
  bq_load_table_from_json : string → list feed → option exn
}.

(** ** Pure code that may raise *)

#[global] Instance exn_ret : MRet (sum exn) := λ A (a : A), inr a.

#[global] Instance exn_bind : MBind (sum exn) := λ A B (f : A → exn + B) (r : exn + A),
  match r with
  | inr a => f a
  | inl e => inl e
  end.

(** ** The monad of the program: state and exceptions *)

Definition M (A : Type) : Type := World → (exn + A) * World.

#[global] Instance M_ret : MRet M := λ A (a : A) w, (inr a, w).

#[global] Instance M_bind : MBind M := λ A B (f : A → M B) (m : M A) w,
  match m w with
  | (inr a, w') => f a w'
  | (inl e, w') => (inl e, w')
  end.

Definition raise {A : Type} (e : exn) : M A := λ w, (inl e, w).

(** A pure computation that may raise. *)
Definition lift {A : Type} (r : exn + A) : M A := λ w, (r, w).

Definition logger_debug (msg : string) : M unit := λ w,
  (inr (), {| requested := requested w; log := log w ++ [(DEBUG, msg)];
              slept := slept w; bq_clients := bq_clients w;
              bq_jobs := bq_jobs w |}).

Definition sleep (delay : Z) (w : World) : World :=
  {| requested := requested w; log := log w; slept := slept w ++ [delay];
     bq_clients := bq_clients w; bq_jobs := bq_jobs w |}.

Definition requests_get `{Outside} (url : string) : M Response := λ w,
  (http_get (requested w) url,
   {| requested := requested w ++ [url]; log := log w; slept := slept w;
      bq_clients := bq_clients w; bq_jobs := bq_jobs w |}).

(** [response.raise_for_status()]: client and server errors raise. *)
Definition raise_for_status (response : Response) : M unit :=
  if decide (400 ≤ status_code response < 600)
  then raise (HTTPError (status_code response))
  else mret ().

(** [response.json()]. *)
Definition response_json (response : Response) : M json :=
  match body response with
  | Some j => mret j
  | None => raise JSONDecodeError
  end.

(** ** Python operations on JSON values *)

(** [obj[key]] with a string key: only a dict can be indexed by one. *)
Definition getitem (obj : json) (key : string) : exn + json :=
  match obj with
  | JObj o => match o !! key with
              | Some v => inr v
              | None => inl (KeyError key)
              end
  | _ => inl TypeError
  end.

(** [obj.items()]: only a dict has the method. *)
Definition items (obj : json) : exn + gmap string json :=
  match obj with
  | JObj o => inr o
  | _ => inl AttributeError
  end.

(** [for x in obj]: a list gives its elements, a dict its keys, a string
    its characters; nothing else is iterable. *)
Definition iter (obj : json) : exn + list json :=
  match obj with
  | JList l => inr l
  | JObj o => inr (JStr <$> (map_to_list o).*1)
  | JStr s => inr ((λ c, JStr (String c "")) <$> String.list_ascii_of_string s)
  | _ => inl TypeError
  end.

(** [str(v)], as an f-string formats a value. *)
Definition py_str `{Outside} (v : json) : string :=
  match v with
  | JStr s => s
  | JInt z => pretty z
  | JNull => "None"
  | JBool true => "True"
  | JBool false => "False"
  | _ => py_repr v
  end.

(** [{**d, **new}]: the keys of [new] override those of [d]. *)
Definition dict_update (d new : gmap string json) : gmap string json := new ∪ d.

(** ** class ThingSpeak *)

(** The dataclass. Python checks no annotation when an instance is built,
    so a field holds whatever value it was given. *)
Record ThingSpeak : Type := {
  primary_id_a : json;
  primary_key_a : json;
  primary_id_b : json;
  primary_key_b : json;
  secondary_id_a : json;
  secondary_key_a : json;
  secondary_id_b : json;
  secondary_key_b : json
}.

(** [signature(ThingSpeak).parameters]: the names of the fields. *)
Definition parameters : list string :=
  [ "primary_id_a"; "primary_key_a"; "primary_id_b"; "primary_key_b";
    "secondary_id_a"; "secondary_key_a"; "secondary_id_b"; "secondary_key_b" ].

(** [ThingSpeak(...)] on keyword arguments, the [__init__] the dataclass
    generates: a keyword that is no field, or a field without a keyword,
    is a [TypeError]. *)
Definition ThingSpeak_init (kwargs : gmap string json) : exn + ThingSpeak :=
  if decide (∀ k, k ∈ dom kwargs → k ∈ parameters) then
    match kwargs !! "primary_id_a", kwargs !! "primary_key_a",
          kwargs !! "primary_id_b", kwargs !! "primary_key_b",
          kwargs !! "secondary_id_a", kwargs !! "secondary_key_a",
          kwargs !! "secondary_id_b", kwargs !! "secondary_key_b" with
    | Some ia, Some ka, Some ib, Some kb, Some sia, Some ska, Some sib, Some skb =>
        inr {| primary_id_a := ia; primary_key_a := ka;
               primary_id_b := ib; primary_key_b := kb;
               secondary_id_a := sia; secondary_key_a := ska;
               secondary_id_b := sib; secondary_key_b := skb |}
    | _, _, _, _, _, _, _, _ => inl TypeError
    end
  else inl TypeError.

(** [ThingSpeak.from_dict(input)]. *)
Definition from_dict (input : json) : exn + ThingSpeak :=
  match items input with
  | inl e => inl e
  | inr kvs => ThingSpeak_init (filter (λ kv, kv.1 ∈ parameters) kvs)
  end.

Definition id_key_pairs (self : ThingSpeak) : list (json * json) :=
  [ (primary_id_a self, primary_key_a self);
    (secondary_id_a self, secondary_key_a self);
    (primary_id_b self, primary_key_b self);
    (secondary_id_b self, secondary_key_b self) ].

Definition base_url : string := "https://api.thingspeak.com/channels".

(** The f-string of [urls], for one pair. *)
Definition feed_url `{Outside} (id key : json) : string :=
  base_url +:+ "/" +:+ py_str id +:+ "/feeds.json?api_key=" +:+ py_str key.

Definition urls `{Outside} (self : ThingSpeak) : list string :=
  (λ p, feed_url p.1 p.2) <$> id_key_pairs self.

(** The dict comprehension of [get_feed]:
    [{f"{k}_name": v for k, v in channel.items() if k[:5] == "field"}].
    The comprehension visits the items one by one and stores each one that
    passes the test under its new key. *)
Definition field_names (channel : gmap string json) : gmap string json :=
  map_fold (λ k v acc,
              if decide (String.substring 0 5 k = "field")
              then <[k +:+ "_name" := v]> acc
              else acc)
           ∅ channel.

(** The list comprehension of [get_feed], over the elements of
    [response["feeds"]]: [{**channel_name, **field_names, **feed}] needs
    [feed] to be a mapping. *)
Fixpoint merge_feeds (channel_name names : gmap string json) (elements : list json)
  : exn + list feed :=
  match elements with
  | [] => inr []
  | JObj f :: rest =>
      let record := dict_update (dict_update (dict_update ∅ channel_name) names) f in
      match merge_feeds channel_name names rest with
      | inr records => inr (record :: records)
      | inl e => inl e
      end
  | _ :: _ => inl TypeError
  end.

(** Lines 55 to 59 of [get_feed]: from the parsed response to the
    records. *)
Definition records_of_response (response : json) : exn + list feed :=
  channel ← getitem response "channel";
  kvs ← items channel;
  let names := field_names kvs in
  name ← getitem channel "name";
  let channel_name : gmap string json := {[ "name" := name ]} in
  fs ← getitem response "feeds";
  elements ← iter fs;
  merge_feeds channel_name names elements.

(** ** The retry decorator *)

(** Modelled from the spec: the decorator [retry] comes from the package
    [retry] (line 3 of the source), whose code is not in the repository.
    Section 4.1 of the spec: "Retries up to 3 attempts total, with
    increasing delay between attempts (first retry after a fixed base
    delay, subsequent delay multiplied by a fixed backoff factor). If all
    attempts fail, propagates the final error to the caller".
    [retry_loop f more delay backoff] runs [f]; when [f] raises and [more]
    attempts are left, it sleeps [delay] and starts again with the delay
    multiplied by [backoff]; when none is left the exception of the last
    attempt goes to the caller. *)
Fixpoint retry_loop {A : Type} (f : M A) (more : nat) (delay backoff : Z) : M A :=
  λ w,
    match f w with
    | (inr a, w') => (inr a, w')
    | (inl e, w') =>
        match more with
        | O => (inl e, w')
        | S n => retry_loop f n (delay * backoff) backoff (sleep delay w')
        end
    end.

(** [@retry(Exception, tries=..., delay=..., backoff=...)]: every exception
    of the model is an [Exception], so every failure is retried. *)
Definition retry {A : Type} (tries : positive) (delay backoff : Z) (f : M A) : M A :=
  retry_loop f (Pos.to_nat tries - 1) delay backoff.

(** ** The two fetches *)

(** The body of [get_feed], one attempt. *)
Definition get_feed_attempt `{Outside} (self : ThingSpeak) (url : string)
  : M (list feed) :=
  logger_debug "Fetching feeds from ThingSpeak API";;
  response ← requests_get (url +:+ "&days=3");
  raise_for_status response;;
  response ← response_json response;
  feeds ← lift (records_of_response response);
  logger_debug "Successfully retreived feeds from ThingSpeak";;
  mret feeds.

Definition get_feed `{Outside} (self : ThingSpeak) (url : string) : M (list feed) :=
  retry 3 1 5 (get_feed_attempt self url).

(** The nested comprehension of the property [feeds], over the URLs left
    to fetch. *)
Fixpoint feeds_of `{Outside} (self : ThingSpeak) (us : list string) : M (list feed) :=
  match us with
  | [] => mret []
  | url :: rest =>
      fs ← get_feed self url;
      more ← feeds_of self rest;
      mret (fs ++ more)
  end.

Definition feeds `{Outside} (self : ThingSpeak) : M (list feed) :=
  feeds_of self (urls self).

(** The f-string of [get_keys_from_purple]: an unset variable is [None]. *)
Definition purple_url `{Outside} : string :=
  "https://api.purpleair.com/v1/sensors/20957?api_key="
  +:+ match environ_get "PURPLE_API_KEY" with
      | Some key => key
      | None => "None"
      end.

(** The body of [get_keys_from_purple], one attempt. *)
Definition get_keys_from_purple_attempt `{Outside} : M json :=
  logger_debug "Fetching ThingSpeak keys from Purple API";;
  response ← requests_get purple_url;
  raise_for_status response;;
  logger_debug "Successfully retreived ThingSpeak keys";;
  parsed ← response_json response;
  lift (getitem parsed "sensor").

Definition get_keys_from_purple `{Outside} : M json :=
  retry 3 1 5 get_keys_from_purple_attempt.

(** ** The pipeline *)

Definition extract `{Outside} : M (list feed) :=
  purple_air_response ← get_keys_from_purple;
  thingspeak ← lift (from_dict purple_air_response);
  feeds thingspeak.

Definition destination : string := "databuildtool.air_quality.raw_thingspeak".

(** [bq.Client()]. *)
Definition new_client `{Outside} : M unit := λ w,
  (match bq_Client with Some e => inl e | None => inr () end,
   {| requested := requested w; log := log w; slept := slept w;
      bq_clients := S (bq_clients w); bq_jobs := bq_jobs w |}).

(** [client.load_table_from_json(data, ...)] and [load_job.result()]. *)
Definition load_table_from_json `{Outside} (data : list feed) (dest : string)
  : M unit := λ w,
  (match bq_load_table_from_json dest data with Some e => inl e | None => inr () end,
   {| requested := requested w; log := log w; slept := slept w;
      bq_clients := bq_clients w; bq_jobs := bq_jobs w ++ [(dest, data)] |}).

Definition load `{Outside} (data : list feed) : M unit :=
  logger_debug "Connecting to BigQuery";;
  new_client;;
  logger_debug "Connected to BigQuery Successfully";;
  load_table_from_json data destination;;
  logger_debug ("Loaded into BigQuery " +:+ destination +:+ " successfully").

Definition main `{Outside} : M string :=
  extracted ← extract;
  logger_debug ("Extracted " +:+ pretty (length extracted) +:+ " feeds successfully");;
  load extracted;;
  mret "Success".

(** ** Vocabulary of the statements *)

(** The record [get_feed] builds for one element [f] of the feeds of a
    channel whose metadata is [channel] and whose display name is [name]. *)
Definition merged (name : json) (channel f : gmap string json) : feed :=
  dict_update (dict_update (dict_update ∅ {[ "name" := name ]}) (field_names channel)) f.

(** The two entries [get_feed] logs, and the two of
    [get_keys_from_purple]. *)
Definition fetching_feeds : level * string :=
  (DEBUG, "Fetching feeds from ThingSpeak API").
Definition retrieved_feeds : level * string :=
  (DEBUG, "Successfully retreived feeds from ThingSpeak").
Definition fetching_keys : level * string :=
  (DEBUG, "Fetching ThingSpeak keys from Purple API").
Definition retrieved_keys : level * string :=
  (DEBUG, "Successfully retreived ThingSpeak keys").

(** How many times an entry occurs in a log. *)
Definition occurrences (entry : level * string) (entries : list (level * string)) : nat :=
  length (filter (λ x, x = entry) entries).

(** The three ways a call under [retry 3 1 5] can go: the first attempt
    returns; the first raises and the second, one second later, returns;
    the first two raise and the third, five seconds later, decides. *)
Inductive three_attempts {A : Type} (f : M A) (w : World) : (exn + A) * World → Prop :=
| first_try a w1 :
    f w = (inr a, w1) → three_attempts f w (inr a, w1)
| second_try e1 w1 a w2 :
    f w = (inl e1, w1) → f (sleep 1 w1) = (inr a, w2) →
    three_attempts f w (inr a, w2)
| third_try e1 w1 e2 w2 r :
    f w = (inl e1, w1) → f (sleep 1 w1) = (inl e2, w2) → f (sleep 5 w2) = r →
    three_attempts f w r.

(** *** The spec's words, for comparison with the code *)

(** Section 4.3 of the spec: a key "matching the pattern field<N> (N being
    a positive integer)": the five letters, then decimal digits that are
    not all zero. *)
Definition is_digit (c : Ascii.ascii) : bool :=
  (48 <=? Ascii.nat_of_ascii c)%nat && (Ascii.nat_of_ascii c <=? 57)%nat.

Definition spec_field_N (k : string) : bool :=
  if decide (String.substring 0 5 k = "field") then
    let digits :=
      String.list_ascii_of_string (String.substring 5 (String.length k - 5) k) in
    forallb is_digit digits
    && existsb (λ c, negb (Ascii.nat_of_ascii c =? 48)%nat) digits
  else false.

(** Section 3 of the spec: "all four pairs must be present and well-typed
    (id: integer, key: non-empty string)". *)
Definition spec_typed_id (v : option json) : bool :=
  match v with Some (JInt _) => true | _ => false end.

Definition spec_typed_key (v : option json) : bool :=
  match v with Some (JStr s) => negb (String.eqb s "") | _ => false end.

Definition spec_well_typed (d : gmap string json) : bool :=
  spec_typed_id (d !! "primary_id_a") && spec_typed_key (d !! "primary_key_a")
  && spec_typed_id (d !! "primary_id_b") && spec_typed_key (d !! "primary_key_b")
  && spec_typed_id (d !! "secondary_id_a") && spec_typed_key (d !! "secondary_key_a")
  && spec_typed_id (d !! "secondary_id_b") && spec_typed_key (d !! "secondary_key_b").

(** ** Concrete inputs *)

(** A registry answer: the eight credentials and two fields more. *)
Definition demo_sensor : gmap string json :=
  <["primary_id_a" := JInt 11]> (<["primary_key_a" := JStr "KA"]>
  (<["primary_id_b" := JInt 12]> (<["primary_key_b" := JStr "KB"]>
  (<["secondary_id_a" := JInt 21]> (<["secondary_key_a" := JStr "SA"]>
  (<["secondary_id_b" := JInt 22]> (<["secondary_key_b" := JStr "SB"]>
  (<["name" := JStr "porch"]> {[ "latitude" := JFloat 5 3 ]})))))))).

Definition demo_thingspeak : ThingSpeak :=
  {| primary_id_a := JInt 11; primary_key_a := JStr "KA";
     primary_id_b := JInt 12; primary_key_b := JStr "KB";
     secondary_id_a := JInt 21; secondary_key_a := JStr "SA";
     secondary_id_b := JInt 22; secondary_key_b := JStr "SB" |}.

(** The same answer with a string for an id and an empty key. *)
Definition mistyped_sensor : gmap string json :=
  <["primary_id_a" := JStr "eleven"]> (<["primary_key_a" := JStr ""]> demo_sensor).

(** The example of section 8 of the spec. *)
Definition example_channel : gmap string json :=
  <["name" := JStr "X"]> {[ "field1" := JStr "PM2.5" ]}.

Definition example_feed : feed :=
  <["entry_id" := JInt 1]> {[ "field1" := JStr "12" ]}.

Definition example_response : gmap string json :=
  <["channel" := JObj example_channel]> {[ "feeds" := JList [JObj example_feed] ]}.

Definition example_record : feed :=
  <["name" := JStr "X"]> (<["field1_name" := JStr "PM2.5"]>
  (<["entry_id" := JInt 1]> {[ "field1" := JStr "12" ]})).

(** Answers of the two APIs. *)
Definition reading (i : Z) : feed :=
  <["entry_id" := JInt i]> {[ "field1" := JStr "12" ]}.

Definition channel_body (name : string) (readings : list feed) : gmap string json :=
  <["channel" := JObj (<["name" := JStr name]> {[ "field1" := JStr "PM2.5" ]})]>
    {[ "feeds" := JList (JObj <$> readings) ]}.

Definition ok (j : json) : exn + Response :=
  inr {| status_code := 200; body := Some j |}.

Definition registry_url : string :=
  "https://api.purpleair.com/v1/sensors/20957?api_key=K".
Definition url_primary_a : string :=
  "https://api.thingspeak.com/channels/11/feeds.json?api_key=KA".
Definition url_secondary_a : string :=
  "https://api.thingspeak.com/channels/21/feeds.json?api_key=SA".
Definition url_primary_b : string :=
  "https://api.thingspeak.com/channels/12/feeds.json?api_key=KB".
Definition url_secondary_b : string :=
  "https://api.thingspeak.com/channels/22/feeds.json?api_key=SB".

(** A network on which everything answers, the channel primary-A only at
    its third request (the fourth of the run). *)
Definition flaky_net (history : list string) (url : string) : exn + Response :=
  if decide (url = registry_url) then ok (JObj {[ "sensor" := JObj demo_sensor ]})
  else if decide (url = url_primary_a +:+ "&days=3") then
    if decide (length history < 3)%nat then inl RequestException
    else ok (JObj (channel_body "A1" [reading 1; reading 2]))
  else if decide (url = url_secondary_a +:+ "&days=3") then
    ok (JObj (channel_body "A2" [reading 3]))
  else if decide (url = url_primary_b +:+ "&days=3") then
    ok (JObj (channel_body "B1" []))
  else ok (JObj (channel_body "B2" [reading 4])).

(** The same network, the channel primary-B answering 500 every time. *)
Definition broken_net (history : list string) (url : string) : exn + Response :=
  if decide (url = url_primary_b +:+ "&days=3")
  then inr {| status_code := 500; body := None |}
  else flaky_net history url.

Definition outside (net : list string → string → exn + Response)
    (load_error : option exn) : Outside :=
  {| http_get := net;
     environ_get := λ name, if decide (name = "PURPLE_API_KEY") then Some "K" else None;
     py_repr := λ _, "?";
     bq_Client := None;
     bq_load_table_from_json := λ _ _, load_error |}.

Definition flaky : Outside := outside flaky_net None.
Definition broken : Outside := outside broken_net None.
Definition full_warehouse : Outside := outside flaky_net (Some GoogleAPIError).

(** The world before the run. *)
Definition boot : World :=
  {| requested := []; log := []; slept := []; bq_clients := 0; bq_jobs := [] |}.

(** The world once the registry has been asked, with an empty log. *)
Definition after_registry : World :=
  {| requested := [registry_url]; log := []; slept := []; bq_clients := 0;
     bq_jobs := [] |}.

(** *** Reading an outcome *)

Definition returned {A : Type} (r : (exn + A) * World) : bool :=
  match r.1 with inr _ => true | inl _ => false end.

Definition value {A : Type} (d : A) (r : (exn + A) * World) : A :=
  match r.1 with inr a => a | inl _ => d end.

Definition raised {A : Type} (r : (exn + A) * World) : option exn :=
  match r.1 with inl e => Some e | inr _ => None end.

(** *** The runs of the examples *)

(** On the flaky network, from [boot]: the registry, then the four
    channels in the order of [id_key_pairs]. *)
Definition flaky_keys : (exn + json) * World :=
  get_keys_from_purple (H:=flaky) boot.

Definition flaky_primary_a : (exn + list feed) * World :=
  get_feed (H:=flaky) demo_thingspeak
    (feed_url (H:=flaky) (primary_id_a demo_thingspeak) (primary_key_a demo_thingspeak))
    flaky_keys.2.

Definition flaky_secondary_a : (exn + list feed) * World :=
  get_feed (H:=flaky) demo_thingspeak
    (feed_url (H:=flaky) (secondary_id_a demo_thingspeak) (secondary_key_a demo_thingspeak))
    flaky_primary_a.2.

Definition flaky_primary_b : (exn + list feed) * World :=
  get_feed (H:=flaky) demo_thingspeak
    (feed_url (H:=flaky) (primary_id_b demo_thingspeak) (primary_key_b demo_thingspeak))
    flaky_secondary_a.2.

Definition flaky_secondary_b : (exn + list feed) * World :=
  get_feed (H:=flaky) demo_thingspeak
    (feed_url (H:=flaky) (secondary_id_b demo_thingspeak) (secondary_key_b demo_thingspeak))
    flaky_primary_b.2.

(** The three attempts at the channel primary-A on the flaky network. *)
Definition flaky_attempt_1 : (exn + list feed) * World :=
  get_feed_attempt (H:=flaky) demo_thingspeak url_primary_a after_registry.

Definition flaky_attempt_2 : (exn + list feed) * World :=
  get_feed_attempt (H:=flaky) demo_thingspeak url_primary_a (sleep 1 flaky_attempt_1.2).


(** The whole pipeline on the flaky network. *)
Definition flaky_extract : (exn + list feed) * World := extract (H:=flaky) boot.

Definition flaky_load : (exn + ()) * World :=
  load (H:=flaky) (value [] flaky_extract)
    (logger_debug ("Extracted " +:+ pretty (length (value [] flaky_extract))
                   +:+ " feeds successfully") flaky_extract.2).2.

(** On the broken network: the registry, the first two channels, and the
    third, which raises. *)
Definition broken_keys : (exn + json) * World :=
  get_keys_from_purple (H:=broken) boot.

Definition broken_fetched : (exn + list feed) * World :=
  feeds_of (H:=broken) demo_thingspeak
    [ feed_url (H:=broken) (primary_id_a demo_thingspeak) (primary_key_a demo_thingspeak);
      feed_url (H:=broken) (secondary_id_a demo_thingspeak)
        (secondary_key_a demo_thingspeak) ]
    broken_keys.2.

Definition broken_primary_b : (exn + list feed) * World :=
  get_feed (H:=broken) demo_thingspeak
    (feed_url (H:=broken) (primary_id_b demo_thingspeak) (primary_key_b demo_thingspeak))
    broken_fetched.2.

(** *** Answers that are not what the program expects *)

(** A network whose every answer is the object [{"status": "0"}]: it has
    no [sensor], no [channel] and no [feeds]. *)
Definition mute_body : gmap string json := {[ "status" := JStr "0" ]}.

Definition mute_net (history : list string) (url : string) : exn + Response :=
  ok (JObj mute_body).

Definition mute : Outside := outside mute_net None.

(** A registry whose sensor lacks the key of the channel primary-B. *)
Definition partial_sensor : gmap string json := delete "primary_key_b" demo_sensor.

Definition partial_body : gmap string json := {[ "sensor" := JObj partial_sensor ]}.

Definition partial_net (history : list string) (url : string) : exn + Response :=
  ok (JObj partial_body).

Definition partial : Outside := outside partial_net None.

(** The whole run on the flaky network. *)
Definition flaky_main : (exn + string) * World := main (H:=flaky) boot.

(** *** Effort *)

(** Between [w] and [w'] at most [3 * k] requests were made and at most
    [2 * k] sleeps taken, each of 1 or 5 seconds and [6 * k] seconds in
    all, and the warehouse was not touched: what [k] fetches under
    [retry 3 1 5] can cost. *)
Definition effort (k : nat) (w w' : World) : Prop :=
  ∃ (asked : list string) (pauses : list Z),
    requested w' = requested w ++ asked ∧ (length asked ≤ 3 * k)%nat
    ∧ slept w' = slept w ++ pauses
    ∧ Forall (λ z, z = 1 ∨ z = 5) pauses ∧ (length pauses ≤ 2 * k)%nat
    ∧ foldr Z.add 0 pauses ≤ 6 * Z.of_nat k
    ∧ bq_clients w' = bq_clients w ∧ bq_jobs w' = bq_jobs w.

(** *** Channel answers *)

(** The answer [a] of a request is a channel answer: no client or server
    error, and a JSON object whose [channel] is the object [ch], with
    the display name [name], and whose [feeds] is the array of the
    objects [fs]. *)
Definition channel_answer (a : exn + Response) (ch : gmap string json) (name : json)
    (fs : list feed) : Prop :=
  ∃ (status : Z) (r : gmap string json),
    a = inr {| status_code := status; body := Some (JObj r) |}
    ∧ ¬ (400 ≤ status < 600)
    ∧ r !! "channel" = Some (JObj ch) ∧ ch !! "name" = Some name
    ∧ r !! "feeds" = Some (JList (JObj <$> fs)).

(** ** Running monadic code in proofs *)

(** Unfolds the binds and the primitive effects of the goal and reads the
    fields of the worlds they build. *)
Ltac run :=
  repeat first
    [ progress unfold mbind, M_bind, logger_debug, requests_get, lift, raise,
        mret, M_ret
    | progress cbn [requested log slept bq_clients bq_jobs] ].

(** * Properties *)

(** ** Strings and dictionaries *)

Lemma string_length_app (s t : string) :
  String.length (s +:+ t) = (String.length s + String.length t)%nat.
Proof. induction s as [|c s IH]; simpl; [done | by rewrite IH]. Qed.

(** A suffix can be cancelled: renaming [k] to [k +:+ "_name"] never
    merges two keys. *)
Lemma string_app_inj_r (t s1 s2 : string) : s1 +:+ t = s2 +:+ t → s1 = s2.
Proof.
  revert s2. induction s1 as [|c s1 IH]; intros [|c' s2] Heq; simpl in Heq.
  - done.
  - apply (f_equal String.length) in Heq. simpl in Heq.
    rewrite !string_length_app in Heq. simpl in Heq. lia.
  - apply (f_equal String.length) in Heq. simpl in Heq.
    rewrite !string_length_app in Heq. simpl in Heq. lia.
  - injection Heq as -> Heq. f_equal. by apply IH.
Qed.

Lemma parameters_cases (k : string) :
  k ∈ parameters ↔
  k = "primary_id_a" ∨ k = "primary_key_a" ∨ k = "primary_id_b" ∨ k = "primary_key_b" ∨
  k = "secondary_id_a" ∨ k = "secondary_key_a" ∨ k = "secondary_id_b" ∨
  k = "secondary_key_b".
Proof. unfold parameters. rewrite !elem_of_cons, elem_of_nil. tauto. Qed.

Ltac is_parameter := apply parameters_cases; tauto.

(** ** ThingSpeak.from_dict *)

Lemma filter_parameters_lookup (d : gmap string json) (k : string) :
  k ∈ parameters → filter (λ kv, kv.1 ∈ parameters) d !! k = d !! k.
Proof.
  intros Hk. destruct (d !! k) as [v|] eqn:Hd.
  - by apply map_lookup_filter_Some_2.
  - apply map_lookup_filter_None_2. by left.
Qed.

Lemma filter_parameters_dom (d : gmap string json) (k : string) :
  k ∈ dom (filter (λ kv, kv.1 ∈ parameters) d) → k ∈ parameters.
Proof.
  intros [v Hv]%elem_of_dom. by apply map_lookup_filter_Some_1_2 in Hv.
Qed.

(** The filter of [from_dict] leaves the constructor nothing to refuse but
    a missing field: the outcome is read off the eight lookups. *)
Lemma from_dict_lookup (d : gmap string json) :
  from_dict (JObj d) =
    match d !! "primary_id_a", d !! "primary_key_a",
          d !! "primary_id_b", d !! "primary_key_b",
          d !! "secondary_id_a", d !! "secondary_key_a",
          d !! "secondary_id_b", d !! "secondary_key_b" with
    | Some ia, Some ka, Some ib, Some kb, Some sia, Some ska, Some sib, Some skb =>
        inr {| primary_id_a := ia; primary_key_a := ka;
               primary_id_b := ib; primary_key_b := kb;
               secondary_id_a := sia; secondary_key_a := ska;
               secondary_id_b := sib; secondary_key_b := skb |}
    | _, _, _, _, _, _, _, _ => inl TypeError
    end.
Proof.
  unfold from_dict, items, ThingSpeak_init.
  rewrite decide_True by (intros k; apply filter_parameters_dom).
  rewrite !filter_parameters_lookup by is_parameter.
  reflexivity.
Qed.

(** C1. A registry answer that holds the eight credential fields gives a
    [ThingSpeak] whose eight fields are exactly those eight values, and
    any other dictionary that agrees with it on the eight names (whatever
    other keys either one has) gives the same result. *)
Theorem from_dict_extracts_fields (d : gmap string json)
    (ia ka ib kb sia ska sib skb : json) :
  d !! "primary_id_a" = Some ia → d !! "primary_key_a" = Some ka →
  d !! "primary_id_b" = Some ib → d !! "primary_key_b" = Some kb →
  d !! "secondary_id_a" = Some sia → d !! "secondary_key_a" = Some ska →
  d !! "secondary_id_b" = Some sib → d !! "secondary_key_b" = Some skb →
  from_dict (JObj d) =
    inr {| primary_id_a := ia; primary_key_a := ka;
           primary_id_b := ib; primary_key_b := kb;
           secondary_id_a := sia; secondary_key_a := ska;
           secondary_id_b := sib; secondary_key_b := skb |}
  ∧ ∀ d' : gmap string json,
      (∀ k, k ∈ parameters → d' !! k = d !! k) →
      from_dict (JObj d') = from_dict (JObj d).
Proof.
  intros H1 H2 H3 H4 H5 H6 H7 H8. split.
  - rewrite from_dict_lookup. by rewrite H1, H2, H3, H4, H5, H6, H7, H8.
  - intros d' Hsame. rewrite !from_dict_lookup.
    rewrite !Hsame; [reflexivity | is_parameter ..].
Qed.

Lemma from_dict_extracts_fields_witness :
  from_dict (JObj demo_sensor) = inr demo_thingspeak
  ∧ ∀ d' : gmap string json,
      (∀ k, k ∈ parameters → d' !! k = demo_sensor !! k) →
      from_dict (JObj d') = from_dict (JObj demo_sensor).
Proof.
  apply (from_dict_extracts_fields demo_sensor
           (JInt 11) (JStr "KA") (JInt 12) (JStr "KB")
           (JInt 21) (JStr "SA") (JInt 22) (JStr "SB")); vm_compute; reflexivity.
Defined.

(** C2, as stated, fails: a dictionary with the eight names, a string for
    an id and an empty string for a key is not well-typed in the spec's
    sense, and [from_dict] builds the instance with those values. *)
Lemma from_dict_accepts_mistyped :
  spec_well_typed mistyped_sensor = false
  ∧ from_dict (JObj mistyped_sensor) =
      inr {| primary_id_a := JStr "eleven"; primary_key_a := JStr "";
             primary_id_b := JInt 12; primary_key_b := JStr "KB";
             secondary_id_a := JInt 21; secondary_key_a := JStr "SA";
             secondary_id_b := JInt 22; secondary_key_b := JStr "SB" |}.
Proof. split; vm_compute; reflexivity. Qed.

Ltac missing_field k :=
  split;
  [ intros [= <-]; split; [reflexivity|]; exists k; split; [is_parameter | assumption]
  | intros [-> _]; reflexivity ].

(** C2, amended. On a dictionary, [from_dict] raises exactly when one of
    the eight names is absent, and the exception is a [TypeError]; it
    returns exactly when the eight names are present, with their values
    as the fields, whatever the types of the values. *)
Theorem from_dict_fails_iff_missing (d : gmap string json) :
  (∀ e, from_dict (JObj d) = inl e ↔
        e = TypeError ∧ ∃ k, k ∈ parameters ∧ d !! k = None)
  ∧ (∀ ts, from_dict (JObj d) = inr ts ↔
        d !! "primary_id_a" = Some (primary_id_a ts)
        ∧ d !! "primary_key_a" = Some (primary_key_a ts)
        ∧ d !! "primary_id_b" = Some (primary_id_b ts)
        ∧ d !! "primary_key_b" = Some (primary_key_b ts)
        ∧ d !! "secondary_id_a" = Some (secondary_id_a ts)
        ∧ d !! "secondary_key_a" = Some (secondary_key_a ts)
        ∧ d !! "secondary_id_b" = Some (secondary_id_b ts)
        ∧ d !! "secondary_key_b" = Some (secondary_key_b ts)).
Proof.
  rewrite from_dict_lookup. split.
  - intros e.
    destruct (d !! "primary_id_a") eqn:E1; [|missing_field "primary_id_a"].
    destruct (d !! "primary_key_a") eqn:E2; [|missing_field "primary_key_a"].
    destruct (d !! "primary_id_b") eqn:E3; [|missing_field "primary_id_b"].
    destruct (d !! "primary_key_b") eqn:E4; [|missing_field "primary_key_b"].
    destruct (d !! "secondary_id_a") eqn:E5; [|missing_field "secondary_id_a"].
    destruct (d !! "secondary_key_a") eqn:E6; [|missing_field "secondary_key_a"].
    destruct (d !! "secondary_id_b") eqn:E7; [|missing_field "secondary_id_b"].
    destruct (d !! "secondary_key_b") eqn:E8; [|missing_field "secondary_key_b"].
    split; [discriminate|]. intros [_ (k & Hk & Hnone)].
    apply parameters_cases in Hk.
    repeat (destruct Hk as [->|Hk]; [congruence|]). congruence.
  - intros [ia ka ib kb sia ska sib skb]; simpl.
    destruct (d !! "primary_id_a");
      [|split; [discriminate | intros (? & _); discriminate]].
    destruct (d !! "primary_key_a");
      [|split; [discriminate | intros (_ & ? & _); discriminate]].
    destruct (d !! "primary_id_b");
      [|split; [discriminate | intros (_ & _ & ? & _); discriminate]].
    destruct (d !! "primary_key_b");
      [|split; [discriminate | intros (_ & _ & _ & ? & _); discriminate]].
    destruct (d !! "secondary_id_a");
      [|split; [discriminate | intros (_ & _ & _ & _ & ? & _); discriminate]].
    destruct (d !! "secondary_key_a");
      [|split; [discriminate | intros (_ & _ & _ & _ & _ & ? & _); discriminate]].
    destruct (d !! "secondary_id_b");
      [|split; [discriminate | intros (_ & _ & _ & _ & _ & _ & ? & _); discriminate]].
    destruct (d !! "secondary_key_b");
      [|split; [discriminate | intros (_ & _ & _ & _ & _ & _ & _ & ?); discriminate]].
    split.
    + intros [= -> -> -> -> -> -> -> ->]. repeat split.
    + intros ([= ->] & [= ->] & [= ->] & [= ->] & [= ->] & [= ->] & [= ->] & [= ->]).
      reflexivity.
Qed.

(** ** The transform of get_feed *)

(** Which keys the comprehension of [get_feed] produces, and with which
    values. *)
Lemma field_names_lookup (ch : gmap string json) (k' : string) (v : json) :
  field_names ch !! k' = Some v ↔
  ∃ k, k' = k +:+ "_name" ∧ String.substring 0 5 k = "field" ∧ ch !! k = Some v.
Proof.
  unfold field_names. revert k' v.
  induction ch as [|k x ch Hfresh Hfold IH] using map_first_key_ind; intros k' v.
  - rewrite map_fold_empty, lookup_empty. split; [done|].
    intros (k & _ & _ & Hk). by rewrite lookup_empty in Hk.
  - rewrite map_fold_insert_first_key by done.
    assert (∀ k0 : string, is_Some (ch !! k0) → k ≠ k0) as Hne
      by (intros k0 [y Hy] ->; congruence).
    case_decide as Hpre.
    + destruct (decide (k' = k +:+ "_name")) as [->|Hk'].
      * rewrite lookup_insert_eq. split.
        -- intros [= ->]. exists k. by rewrite lookup_insert_eq.
        -- intros (k0 & Heq%string_app_inj_r & _ & Hk0). subst k0.
           by rewrite lookup_insert_eq in Hk0.
      * rewrite lookup_insert_ne by done. rewrite IH. split.
        -- intros (k0 & -> & ? & Hk0). exists k0. split_and!; [done..|].
           rewrite lookup_insert_ne; [done|]. by apply Hne.
        -- intros (k0 & -> & ? & Hk0). exists k0. split_and!; [done..|].
           rewrite lookup_insert_ne in Hk0; [done|]. intros ->. done.
    + rewrite IH. split.
      * intros (k0 & -> & ? & Hk0). exists k0. split_and!; [done..|].
        rewrite lookup_insert_ne; [done|]. by apply Hne.
      * intros (k0 & -> & ? & Hk0). exists k0. split_and!; [done..|].
        rewrite lookup_insert_ne in Hk0; [done|]. intros ->. done.
Qed.

(** C5, as stated, fails: the bare key "field" and the key "fieldset"
    match no pattern field<N>, and both are renamed and kept. *)
Lemma field_names_takes_bare_field :
  spec_field_N "field" = false ∧ spec_field_N "fieldset" = false
  ∧ field_names (<["field" := JStr "x"]> {[ "fieldset" := JStr "y" ]}) =
      <["field_name" := JStr "x"]> {[ "fieldset_name" := JStr "y" ]}.
Proof. split_and!; vm_compute; reflexivity. Qed.

(** C5, amended. The metadata mapping holds exactly the keys of the
    channel object whose first five characters are "field", each renamed
    with the suffix "_name" and with its original value; every key
    field<N> is among them. *)
Theorem field_names_prefix_rule (ch : gmap string json) :
  (∀ k' v, field_names ch !! k' = Some v ↔
     ∃ k, k' = k +:+ "_name" ∧ String.substring 0 5 k = "field" ∧ ch !! k = Some v)
  ∧ (∀ k v, spec_field_N k = true → ch !! k = Some v →
       field_names ch !! (k +:+ "_name") = Some v).
Proof.
  split; [apply field_names_lookup|].
  intros k v Hpat Hk. apply field_names_lookup. exists k. split_and!; [done| |done].
  unfold spec_field_N in Hpat. by case_decide.
Qed.

Lemma merge_feeds_objects (channel_name names : gmap string json) (fs : list feed) :
  merge_feeds channel_name names (JObj <$> fs) =
    inr ((λ f, dict_update (dict_update (dict_update ∅ channel_name) names) f) <$> fs).
Proof.
  induction fs as [|f fs IH]; [done|]. cbn [fmap list_fmap merge_feeds].
  change (list_fmap feed json JObj fs) with (JObj <$> fs). by rewrite IH.
Qed.

(** A well-formed channel answer always transforms, into one [merged]
    record per reading. *)
Lemma records_of_channel_response (r ch : gmap string json) (name : json)
    (fs : list feed) :
  r !! "channel" = Some (JObj ch) → ch !! "name" = Some name →
  r !! "feeds" = Some (JList (JObj <$> fs)) →
  records_of_response (JObj r) = inr (merged name ch <$> fs).
Proof.
  intros Hch Hname Hfeeds. unfold records_of_response, getitem.
  rewrite Hch. cbn [mbind exn_bind items]. rewrite Hname, Hfeeds.
  cbn [mbind exn_bind iter]. apply merge_feeds_objects.
Qed.

(** The precedence in a record: the reading, then the field names, then
    the channel name. *)
Lemma merged_lookup (name : json) (ch f : gmap string json) (k : string) :
  merged name ch f !! k =
    match f !! k with
    | Some v => Some v
    | None => match field_names ch !! k with
              | Some v => Some v
              | None => if decide (k = "name") then Some name else None
              end
    end.
Proof.
  unfold merged, dict_update. rewrite !lookup_union, lookup_empty.
  destruct (decide (k = "name")) as [->|Hk].
  - rewrite lookup_singleton_eq. by destruct (f !! "name"), (field_names ch !! "name").
  - rewrite lookup_singleton_ne by done. by destruct (f !! k), (field_names ch !! k).
Qed.

(** C4. Each record is the merge of the channel name, the field-name
    mapping and the reading, a key of the reading winning a collision;
    the example of the spec gives the record of the spec. *)
Theorem records_merge_channel_metadata :
  (∀ (r ch : gmap string json) (name : json) (fs : list feed),
     r !! "channel" = Some (JObj ch) → ch !! "name" = Some name →
     r !! "feeds" = Some (JList (JObj <$> fs)) →
     ∃ records, records_of_response (JObj r) = inr records
       ∧ length records = length fs
       ∧ ∀ i f, fs !! i = Some f →
           ∃ record, records !! i = Some record
             ∧ ∀ k, record !! k =
                 match f !! k with
                 | Some v => Some v
                 | None => match field_names ch !! k with
                           | Some v => Some v
                           | None => if decide (k = "name") then Some name else None
                           end
                 end)
  ∧ records_of_response (JObj example_response) = inr [example_record].
Proof.
  split.
  - intros r ch name fs Hch Hname Hfeeds.
    exists (merged name ch <$> fs). split; [by apply records_of_channel_response|].
    split; [by rewrite length_fmap|].
    intros i f Hi. exists (merged name ch f). split.
    + by rewrite list_lookup_fmap, Hi.
    + apply merged_lookup.
  - vm_compute. reflexivity.
Qed.

Lemma records_merge_channel_metadata_witness :
  ∃ records, records_of_response (JObj example_response) = inr records
    ∧ length records = 1%nat
    ∧ ∀ i f, [example_feed] !! i = Some f →
        ∃ record, records !! i = Some record
          ∧ ∀ k, record !! k =
              match f !! k with
              | Some v => Some v
              | None => match field_names example_channel !! k with
                        | Some v => Some v
                        | None => if decide (k = "name") then Some (JStr "X") else None
                        end
              end.
Proof.
  apply (proj1 records_merge_channel_metadata
           example_response example_channel (JStr "X") [example_feed]);
    vm_compute; reflexivity.
Defined.

(** ** The retry decorator *)

Lemma retry_loop_run {A : Type} (f : M A) (more : nat) (delay backoff : Z) (w : World) :
  retry_loop f more delay backoff w =
    match f w with
    | (inr a, w') => (inr a, w')
    | (inl e, w') =>
        match more with
        | O => (inl e, w')
        | S n => retry_loop f n (delay * backoff) backoff (sleep delay w')
        end
    end.
Proof. destruct more; reflexivity. Qed.

(** A call under [retry 3 1 5] goes one of the three ways of
    [three_attempts]. *)
Lemma retry_three_attempts {A : Type} (f : M A) (w : World) :
  three_attempts f w (retry 3 1 5 f w).
Proof.
  change (retry 3 1 5 f) with (retry_loop f 2 1 5). rewrite retry_loop_run.
  destruct (f w) as [[e1|a] w1] eqn:H1; [|by apply first_try].
  rewrite retry_loop_run.
  destruct (f (sleep 1 w1)) as [[e2|a] w2] eqn:H2; [|by eapply second_try].
  rewrite retry_loop_run. change (1 * 5) with 5.
  eapply third_try; [done..|].
  by destruct (f (sleep 5 w2)) as [[e3|a] w3].
Qed.

Lemma retry_third_attempt {A : Type} (f : M A) (w0 w1 w2 : World) (e1 e2 : exn) :
  f w0 = (inl e1, w1) → f (sleep 1 w1) = (inl e2, w2) →
  retry 3 1 5 f w0 = f (sleep 5 w2).
Proof.
  intros H1 H2. change (retry 3 1 5 f) with (retry_loop f 2 1 5).
  rewrite retry_loop_run, H1, retry_loop_run, H2, retry_loop_run.
  change (1 * 5) with 5. by destruct (f (sleep 5 w2)) as [[e3|a] w3].
Qed.


(** ** Reading an outcome *)

Lemma returned_eq {A : Type} (d : A) (r : (exn + A) * World) :
  returned r = true → r = (inr (value d r), r.2).
Proof. destruct r as [[e|a] w]; [discriminate | reflexivity]. Qed.

Lemma returned_unit (r : (exn + ()) * World) :
  returned r = true → r = (inr (), r.2).
Proof. destruct r as [[e|[]] w]; [discriminate | reflexivity]. Qed.

Lemma raised_eq {A : Type} (r : (exn + A) * World) (e : exn) :
  raised r = Some e → r = (inl e, r.2).
Proof. destruct r as [[e'|a] w]; [intros [= ->]; reflexivity | discriminate]. Qed.

(** ** One attempt of each fetch *)

Lemma get_feed_attempt_effect `{Outside} (self : ThingSpeak) (url : string)
    (w w' : World) (r : exn + list feed) :
  get_feed_attempt self url w = (r, w') →
  requested w' = requested w ++ [url +:+ "&days=3"]
  ∧ log w' = log w ++ fetching_feeds
               :: match r with inl _ => [] | inr _ => [retrieved_feeds] end
  ∧ slept w' = slept w ∧ bq_clients w' = bq_clients w ∧ bq_jobs w' = bq_jobs w.
Proof.
  unfold get_feed_attempt. run.
  destruct (http_get (requested w) (url +:+ "&days=3")) as [e|response]; run.
  { intros [= <- <-]. cbn. by rewrite <- ?app_assoc. }
  unfold raise_for_status. case_decide; run.
  { intros [= <- <-]. cbn. by rewrite <- ?app_assoc. }
  unfold response_json. destruct (body response) as [j|]; run.
  2: { intros [= <- <-]. cbn. by rewrite <- ?app_assoc. }
  destruct (records_of_response j) as [e|records]; run.
  { intros [= <- <-]. cbn. by rewrite <- ?app_assoc. }
  intros [= <- <-]. cbn. by rewrite <- ?app_assoc.
Qed.

Lemma get_keys_attempt_effect `{Outside} (w w' : World) (r : exn + json) :
  get_keys_from_purple_attempt w = (r, w') →
  requested w' = requested w ++ [purple_url]
  ∧ (∃ tail, log w' = log w ++ fetching_keys :: tail
       ∧ (tail = [] ∨ tail = [retrieved_keys])
       ∧ (∀ j, r = inr j → tail = [retrieved_keys]))
  ∧ slept w' = slept w ∧ bq_clients w' = bq_clients w ∧ bq_jobs w' = bq_jobs w.
Proof.
  unfold get_keys_from_purple_attempt. run.
  destruct (http_get (requested w) purple_url) as [e|response]; run.
  { intros [= <- <-]. cbn. split_and!; try done. exists [].
    rewrite <- ?app_assoc. split_and!; [done | by left | done]. }
  unfold raise_for_status. case_decide; run.
  { intros [= <- <-]. cbn. split_and!; try done. exists [].
    rewrite <- ?app_assoc. split_and!; [done | by left | done]. }
  unfold response_json. destruct (body response) as [j|]; run.
  2: { intros [= <- <-]. cbn. split_and!; try done. exists [retrieved_keys].
       rewrite <- ?app_assoc. split_and!; [done | by right | done]. }
  intros [= <- <-]. cbn. split_and!; try done. exists [retrieved_keys].
  rewrite <- ?app_assoc. split_and!; [done | by right | done].
Qed.

(** ** The two fetches, under retry *)

(** What a whole call of [get_feed] does to the world: [n] attempts, each
    with its request and its entry, the sleeps between them, and the
    closing entry when the last attempt returned. *)
Lemma get_feed_effect `{Outside} (self : ThingSpeak) (url : string)
    (w w' : World) (r : exn + list feed) :
  get_feed self url w = (r, w') →
  ∃ n : nat, (1 ≤ n ≤ 3)%nat
    ∧ requested w' = requested w ++ replicate n (url +:+ "&days=3")
    ∧ log w' = log w ++ replicate n fetching_feeds
                 ++ match r with inl _ => [] | inr _ => [retrieved_feeds] end
    ∧ slept w' = slept w ++ take (n - 1) [1; 5]
    ∧ bq_clients w' = bq_clients w ∧ bq_jobs w' = bq_jobs w
    ∧ (∀ e, r = inl e → n = 3%nat).
Proof.
  intros Hrun. pose proof (retry_three_attempts (get_feed_attempt self url) w) as Hways.
  unfold get_feed in Hrun. rewrite Hrun in Hways.
  inversion Hways as [a w1 H1|e1 w1 a w2 H1 H2|e1 w1 e2 w2 r' H1 H2 H3]; subst.
  - apply get_feed_attempt_effect in H1 as (Hreq & Hlog & Hsl & Hc & Hj).
    exists 1%nat. cbn. split_and!; try done; try lia. by rewrite app_nil_r.
  - apply get_feed_attempt_effect in H1 as (Hreq1 & Hlog1 & Hsl1 & Hc1 & Hj1).
    apply get_feed_attempt_effect in H2 as (Hreq & Hlog & Hsl & Hc & Hj).
    cbn in Hreq, Hlog, Hsl, Hc, Hj.
    exists 2%nat. cbn. rewrite Hreq, Hlog, Hsl, Hc, Hj, Hreq1, Hlog1, Hsl1, Hc1, Hj1.
    rewrite <- !app_assoc. split_and!; try done; lia.
  - apply get_feed_attempt_effect in H1 as (Hreq1 & Hlog1 & Hsl1 & Hc1 & Hj1).
    apply get_feed_attempt_effect in H2 as (Hreq2 & Hlog2 & Hsl2 & Hc2 & Hj2).
    apply get_feed_attempt_effect in H3 as (Hreq & Hlog & Hsl & Hc & Hj).
    cbn in Hreq, Hlog, Hsl, Hc, Hj, Hreq2, Hlog2, Hsl2, Hc2, Hj2.
    exists 3%nat. cbn.
    rewrite Hreq, Hlog, Hsl, Hc, Hj, Hreq2, Hlog2, Hsl2, Hc2, Hj2, Hreq1, Hlog1, Hsl1,
      Hc1, Hj1.
    rewrite <- !app_assoc. split_and!; try done; lia.
Qed.

Lemma occurrences_nil (entry : level * string) : occurrences entry [] = 0%nat.
Proof. reflexivity. Qed.

Lemma occurrences_cons (entry x : level * string) (l : list (level * string)) :
  occurrences entry (x :: l) =
    ((if decide (x = entry) then 1 else 0) + occurrences entry l)%nat.
Proof. unfold occurrences. rewrite filter_cons. by case_decide. Qed.

Lemma occurrences_app (entry : level * string) (l1 l2 : list (level * string)) :
  occurrences entry (l1 ++ l2) = (occurrences entry l1 + occurrences entry l2)%nat.
Proof. unfold occurrences. by rewrite filter_app, length_app. Qed.

Lemma occurrences_replicate (entry : level * string) (n : nat) :
  occurrences entry (replicate n entry) = n.
Proof.
  induction n as [|n IH]; [done|]. cbn [replicate].
  rewrite occurrences_cons, decide_True by done. by rewrite IH.
Qed.

Ltac count_entries :=
  rewrite ?occurrences_app, ?occurrences_cons, ?occurrences_nil;
  repeat case_decide; try discriminate; try congruence; try lia.

Lemma get_keys_effect `{Outside} (w w' : World) (r : exn + json) :
  get_keys_from_purple w = (r, w') →
  ∃ (n : nat) (new : list (level * string)), (1 ≤ n ≤ 3)%nat
    ∧ requested w' = requested w ++ replicate n purple_url
    ∧ log w' = log w ++ new
    ∧ occurrences fetching_keys new = n
    ∧ (occurrences retrieved_keys new ≤ n)%nat
    ∧ (∀ j, r = inr j → (1 ≤ occurrences retrieved_keys new)%nat)
    ∧ slept w' = slept w ++ take (n - 1) [1; 5]
    ∧ bq_clients w' = bq_clients w ∧ bq_jobs w' = bq_jobs w
    ∧ (∀ e, r = inl e → n = 3%nat)
    ∧ length new = (occurrences fetching_keys new + occurrences retrieved_keys new)%nat.
Proof.
  intros Hrun. pose proof (retry_three_attempts get_keys_from_purple_attempt w) as Hways.
  unfold get_keys_from_purple in Hrun. rewrite Hrun in Hways.
  inversion Hways as [a w1 H1|e1 w1 a w2 H1 H2|e1 w1 e2 w2 r' H1 H2 H3]; subst.
  - apply get_keys_attempt_effect in H1 as (Hreq & (t & Hlog & _ & Ht) & Hsl & Hc & Hj).
    rewrite (Ht a eq_refl) in Hlog.
    exists 1%nat, [fetching_keys; retrieved_keys]. cbn [replicate take Nat.sub].
    rewrite app_nil_r. split_and!; try done; try lia; try intros _ _; count_entries.
  - apply get_keys_attempt_effect in H1
      as (Hreq1 & (t1 & Hlog1 & Ht1 & _) & Hsl1 & Hc1 & Hj1).
    apply get_keys_attempt_effect in H2 as (Hreq & (t & Hlog & _ & Ht) & Hsl & Hc & Hj).
    rewrite (Ht a eq_refl) in Hlog. cbn in Hreq, Hlog, Hsl, Hc, Hj.
    exists 2%nat, (fetching_keys :: t1 ++ [fetching_keys; retrieved_keys]).
    rewrite Hreq, Hlog, Hsl, Hc, Hj, Hreq1, Hlog1, Hsl1, Hc1, Hj1.
    rewrite <- !app_assoc.
    destruct Ht1 as [->| ->]; cbn [replicate take Nat.sub app];
      split_and!; try done; try lia; try intros _ _; count_entries.
  - apply get_keys_attempt_effect in H1
      as (Hreq1 & (t1 & Hlog1 & Ht1 & _) & Hsl1 & Hc1 & Hj1).
    apply get_keys_attempt_effect in H2
      as (Hreq2 & (t2 & Hlog2 & Ht2 & _) & Hsl2 & Hc2 & Hj2).
    apply get_keys_attempt_effect in H3
      as (Hreq & (t & Hlog & Ht & Hok) & Hsl & Hc & Hj).
    cbn in Hreq, Hlog, Hsl, Hc, Hj, Hreq2, Hlog2, Hsl2, Hc2, Hj2.
    exists 3%nat, (fetching_keys :: t1 ++ fetching_keys :: t2 ++ fetching_keys :: t).
    rewrite Hreq, Hlog, Hsl, Hc, Hj, Hreq2, Hlog2, Hsl2, Hc2, Hj2, Hreq1, Hlog1, Hsl1,
      Hc1, Hj1.
    rewrite <- !app_assoc.
    destruct Ht1 as [->| ->], Ht2 as [->| ->], Ht as [->| ->];
      cbn [replicate take Nat.sub app];
      split_and!; try done; try lia;
      try (intros j Hj'; try (specialize (Hok j Hj'); discriminate));
      count_entries.
Qed.



(** C8, as stated, fails: on the flaky network one call of [get_feed]
    returns the records and leaves three entries "Fetching feeds ..." in
    the log, one for each attempt, before the closing entry. *)
Lemma get_feed_logs_each_attempt :
  returned (get_feed (H:=flaky) demo_thingspeak url_primary_a after_registry) = true
  ∧ log (get_feed (H:=flaky) demo_thingspeak url_primary_a after_registry).2 =
      [fetching_feeds; fetching_feeds; fetching_feeds; retrieved_feeds]
  ∧ occurrences fetching_feeds
      (log (get_feed (H:=flaky) demo_thingspeak url_primary_a after_registry).2) = 3%nat.
Proof. split_and!; vm_compute; reflexivity. Qed.

(** C8, amended. The entry before a fetch is logged once for every
    attempt, so one to three times for one call, as many times as
    requests are made. A call of [get_feed] logs the closing entry once
    when it returns and never when it raises; a call of
    [get_keys_from_purple] logs its closing entry at most once for each
    attempt and at least once when it returns. Nothing else is logged. *)
Theorem fetch_logs_once_per_attempt `{Outside} (self : ThingSpeak) (url : string)
    (w w' : World) :
  (∀ r, get_feed self url w = (r, w') →
     ∃ n : nat, (1 ≤ n ≤ 3)%nat
       ∧ requested w' = requested w ++ replicate n (url +:+ "&days=3")
       ∧ log w' = log w ++ replicate n fetching_feeds
                    ++ match r with inl _ => [] | inr _ => [retrieved_feeds] end)
  ∧ (∀ r, get_keys_from_purple w = (r, w') →
       ∃ (n : nat) (new : list (level * string)), (1 ≤ n ≤ 3)%nat
         ∧ requested w' = requested w ++ replicate n purple_url
         ∧ log w' = log w ++ new
         ∧ occurrences fetching_keys new = n
         ∧ (occurrences retrieved_keys new ≤ n)%nat
         ∧ (∀ j, r = inr j → (1 ≤ occurrences retrieved_keys new)%nat)
         ∧ length new = (occurrences fetching_keys new + occurrences retrieved_keys new)%nat).
Proof.
  split.
  - intros r Hrun. apply get_feed_effect in Hrun as (n & Hn & Hreq & Hlog & _).
    by exists n.
  - intros r Hrun.
    apply get_keys_effect in Hrun
      as (n & new & Hn & Hreq & Hlog & Hf & Hr & Hok & _ & _ & _ & _ & Hlen).
    by exists n, new.
Qed.

Lemma fetch_logs_once_per_attempt_witness :
  ∃ n : nat, (1 ≤ n ≤ 3)%nat
    ∧ requested (get_feed (H:=flaky) demo_thingspeak url_primary_a after_registry).2 =
        requested after_registry ++ replicate n (url_primary_a +:+ "&days=3")
    ∧ log (get_feed (H:=flaky) demo_thingspeak url_primary_a after_registry).2 =
        log after_registry ++ replicate n fetching_feeds
          ++ match (get_feed (H:=flaky) demo_thingspeak url_primary_a after_registry).1 with
             | inl _ => []
             | inr _ => [retrieved_feeds]
             end.
Proof.
  apply (proj1 (fetch_logs_once_per_attempt (H:=flaky) demo_thingspeak url_primary_a
                  after_registry
                  (get_feed (H:=flaky) demo_thingspeak url_primary_a after_registry).2)).
  by destruct (get_feed (H:=flaky) demo_thingspeak url_primary_a after_registry).
Defined.

(** ** Every attempt of get_feed that is answered *)

Lemma get_feed_attempt_answered `{Outside} (self : ThingSpeak) (url : string)
    (w : World) (ch : gmap string json) (name : json) (fs : list feed) :
  channel_answer (http_get (requested w) (url +:+ "&days=3")) ch name fs →
  get_feed_attempt self url w =
    (inr (merged name ch <$> fs),
     {| requested := requested w ++ [url +:+ "&days=3"];
        log := log w ++ [fetching_feeds; retrieved_feeds];
        slept := slept w; bq_clients := bq_clients w; bq_jobs := bq_jobs w |}).
Proof.
  intros (status & r & Hget & Hstatus & Hch & Hname & Hfeeds).
  unfold get_feed_attempt. run. rewrite Hget. run.
  unfold raise_for_status. cbn [status_code]. rewrite decide_False by done. run.
  unfold response_json. cbn [body]. run.
  rewrite (records_of_channel_response r ch name fs) by done. run.
  cbn. by rewrite <- ?app_assoc.
Qed.

Lemma merge_feeds_returned (channel_name names : gmap string json) (elements : list json)
    (records : list feed) :
  merge_feeds channel_name names elements = inr records →
  ∃ fs : list feed,
    elements = JObj <$> fs
    ∧ records =
        (λ f, dict_update (dict_update (dict_update ∅ channel_name) names) f) <$> fs.
Proof.
  revert records. induction elements as [|x xs IH]; intros records.
  - cbn. intros [= <-]. by exists [].
  - cbn [merge_feeds]. destruct x as [| | | | | |f]; try discriminate.
    destruct (merge_feeds channel_name names xs) as [e|rest]; [discriminate|].
    intros [= <-]. destruct (IH rest eq_refl) as (fs & -> & ->). by exists (f :: fs).
Qed.

(** The transform returns only on an object with a [channel] object that
    has a [name] and with [feeds] whose elements are all objects, and
    then with the [merged] record of each element, in their order. *)
Lemma records_of_response_returned (j : json) (records : list feed) :
  records_of_response j = inr records →
  ∃ (r ch : gmap string json) (name fv : json) (fs : list feed),
    j = JObj r ∧ r !! "channel" = Some (JObj ch) ∧ ch !! "name" = Some name
    ∧ r !! "feeds" = Some fv ∧ iter fv = inr (JObj <$> fs)
    ∧ records = merged name ch <$> fs.
Proof.
  unfold records_of_response, getitem.
  destruct j as [| | | | | |r]; try discriminate.
  destruct (r !! "channel") as [c|] eqn:Hch; [|discriminate]. cbn [mbind exn_bind].
  destruct c as [| | | | | |ch]; try discriminate. cbn [items mbind exn_bind].
  destruct (ch !! "name") as [name|] eqn:Hname; [|discriminate]. cbn [mbind exn_bind].
  destruct (r !! "feeds") as [fv|] eqn:Hfeeds; [|discriminate]. cbn [mbind exn_bind].
  destruct (iter fv) as [e|elements] eqn:Hiter; [discriminate|]. cbn [mbind exn_bind].
  intros (fs & -> & ->)%merge_feeds_returned.
  by exists r, ch, name, fv, fs.
Qed.

Lemma get_feed_attempt_returned `{Outside} (self : ThingSpeak) (url : string)
    (w w' : World) (records : list feed) :
  get_feed_attempt self url w = (inr records, w') →
  ∃ (status : Z) (j : json),
    http_get (requested w) (url +:+ "&days=3")
      = inr {| status_code := status; body := Some j |}
    ∧ ¬ (400 ≤ status < 600) ∧ records_of_response j = inr records
    ∧ requested w' = requested w ++ [url +:+ "&days=3"].
Proof.
  unfold get_feed_attempt. run.
  destruct (http_get (requested w) (url +:+ "&days=3")) as [e|[status b]]; run;
    [discriminate|].
  unfold raise_for_status. cbn [status_code]. case_decide; run; [discriminate|].
  unfold response_json. cbn [body]. destruct b as [j|]; run; [|discriminate].
  destruct (records_of_response j) as [e|rs] eqn:Hj; run; [discriminate|].
  intros [= <- <-]. by exists status, j.
Qed.

(** C10. Whenever [get_feed] returns, at whichever attempt, what it
    returns is read off the answer to the last request it made: that
    answer is no client or server error, its body is an object whose
    [channel] is an object with a [name] and whose [feeds] holds only
    objects, and the result is the [merged] record of each of them, one
    for each and in their order (for an array, the elements are the
    array itself). And [get_feed] does return so: when the request of the
    first attempt gets a channel answer, when the first attempt raises
    and the request of the second gets one, and when the first two raise
    and the request of the third gets one, the result is one [merged]
    record for each element of the [feeds] array of that answer, in the
    order of the array; in particular the empty list for an empty
    array. *)
Theorem get_feed_one_record_per_reading `{Outside} (self : ThingSpeak) (url : string)
    (w : World) :
  (∀ records w',
     get_feed self url w = (inr records, w') →
     ∃ (history : list string) (status : Z) (r ch : gmap string json) (name fv : json)
       (fs : list feed),
       requested w' = history ++ [url +:+ "&days=3"]
       ∧ http_get history (url +:+ "&days=3")
           = inr {| status_code := status; body := Some (JObj r) |}
       ∧ ¬ (400 ≤ status < 600)
       ∧ r !! "channel" = Some (JObj ch) ∧ ch !! "name" = Some name
       ∧ r !! "feeds" = Some fv ∧ iter fv = inr (JObj <$> fs)
       ∧ (∀ l, fv = JList l → l = JObj <$> fs)
       ∧ records = merged name ch <$> fs ∧ length records = length fs)
  ∧ (∀ ch name fs,
       channel_answer (http_get (requested w) (url +:+ "&days=3")) ch name fs →
       ∃ w', get_feed self url w = (inr (merged name ch <$> fs), w')
             ∧ length (merged name ch <$> fs) = length fs
             ∧ (fs = [] → get_feed self url w = (inr [], w')))
  ∧ (∀ e1 w1 ch name fs,
       get_feed_attempt self url w = (inl e1, w1) →
       channel_answer (http_get (requested (sleep 1 w1)) (url +:+ "&days=3")) ch name fs →
       ∃ w', get_feed self url w = (inr (merged name ch <$> fs), w')
             ∧ length (merged name ch <$> fs) = length fs
             ∧ (fs = [] → get_feed self url w = (inr [], w')))
  ∧ (∀ e1 w1 e2 w2 ch name fs,
       get_feed_attempt self url w = (inl e1, w1) →
       get_feed_attempt self url (sleep 1 w1) = (inl e2, w2) →
       channel_answer (http_get (requested (sleep 5 w2)) (url +:+ "&days=3")) ch name fs →
       ∃ w', get_feed self url w = (inr (merged name ch <$> fs), w')
             ∧ length (merged name ch <$> fs) = length fs
             ∧ (fs = [] → get_feed self url w = (inr [], w'))).
Proof.
  split_and!.
  - intros records w' Hrun.
    assert (∃ w0, get_feed_attempt self url w0 = (inr records, w')) as [w0 Hattempt].
    { pose proof (retry_three_attempts (get_feed_attempt self url) w) as Hways.
      unfold get_feed in Hrun. rewrite Hrun in Hways.
      inversion Hways; subst; by eexists. }
    apply get_feed_attempt_returned in Hattempt as (status & j & Hget & Hstatus & Hj & Hreq).
    apply records_of_response_returned in Hj
      as (r & ch & name & fv & fs & -> & Hch & Hname & Hfeeds & Hiter & ->).
    exists (requested w0), status, r, ch, name, fv, fs.
    split_and!; try done.
    + intros l ->. cbn in Hiter. by injection Hiter.
    + by rewrite length_fmap.
  - intros ch name fs Hanswer. apply (get_feed_attempt_answered self) in Hanswer.
    eexists. split_and!.
    + unfold get_feed. change (retry 3 1 5 ?f) with (retry_loop f 2 1 5).
      by rewrite retry_loop_run, Hanswer.
    + by rewrite length_fmap.
    + intros ->. unfold get_feed. change (retry 3 1 5 ?f) with (retry_loop f 2 1 5).
      by rewrite retry_loop_run, Hanswer.
  - intros e1 w1 ch name fs H1 Hanswer.
    apply (get_feed_attempt_answered self) in Hanswer.
    eexists. split_and!.
    + unfold get_feed. change (retry 3 1 5 ?f) with (retry_loop f 2 1 5).
      by rewrite retry_loop_run, H1, retry_loop_run, Hanswer.
    + by rewrite length_fmap.
    + intros ->. unfold get_feed. change (retry 3 1 5 ?f) with (retry_loop f 2 1 5).
      by rewrite retry_loop_run, H1, retry_loop_run, Hanswer.
  - intros e1 w1 e2 w2 ch name fs H1 H2 Hanswer.
    apply (get_feed_attempt_answered self) in Hanswer.
    eexists. split_and!.
    + unfold get_feed. by rewrite (retry_third_attempt _ _ _ _ _ _ H1 H2), Hanswer.
    + by rewrite length_fmap.
    + intros ->. unfold get_feed.
      by rewrite (retry_third_attempt _ _ _ _ _ _ H1 H2), Hanswer.
Qed.

(** On the flaky network the channel primary-A is answered at the third
    request, with two readings: two records come back, in their order. *)
Lemma get_feed_one_record_per_reading_witness :
  ∃ w', get_feed (H:=flaky) demo_thingspeak url_primary_a after_registry =
          (inr (merged (JStr "A1") (<["name" := JStr "A1"]> {[ "field1" := JStr "PM2.5" ]})
                  <$> [reading 1; reading 2]), w')
        ∧ length (merged (JStr "A1")
                    (<["name" := JStr "A1"]> {[ "field1" := JStr "PM2.5" ]})
                    <$> [reading 1; reading 2]) = length [reading 1; reading 2]
        ∧ ([reading 1; reading 2] = [] →
             get_feed (H:=flaky) demo_thingspeak url_primary_a after_registry
               = (inr [], w')).
Proof.
  apply (proj2 (proj2 (proj2
           (get_feed_one_record_per_reading (H:=flaky) demo_thingspeak url_primary_a
              after_registry)))
           RequestException flaky_attempt_1.2 RequestException flaky_attempt_2.2
           (<["name" := JStr "A1"]> {[ "field1" := JStr "PM2.5" ]}) (JStr "A1")
           [reading 1; reading 2]
           (raised_eq flaky_attempt_1 RequestException
              (eq_refl (Some RequestException)
                 <: raised flaky_attempt_1 = Some RequestException))
           (raised_eq flaky_attempt_2 RequestException
              (eq_refl (Some RequestException)
                 <: raised flaky_attempt_2 = Some RequestException))).
  exists 200, (channel_body "A1" [reading 1; reading 2]). split_and!.
  - vm_compute. reflexivity.
  - intros [? ?]. lia.
  - vm_compute. reflexivity.
  - vm_compute. reflexivity.
  - vm_compute. reflexivity.
Defined.

(** ** feeds, extract, load and main *)

Lemma feeds_of_cons `{Outside} (self : ThingSpeak) (url : string) (rest : list string)
    (w : World) :
  feeds_of self (url :: rest) w =
    match get_feed self url w with
    | (inr fs, w1) =>
        match feeds_of self rest w1 with
        | (inr more, w2) => (inr (fs ++ more), w2)
        | (inl e, w2) => (inl e, w2)
        end
    | (inl e, w1) => (inl e, w1)
    end.
Proof.
  cbn [feeds_of]. run. destruct (get_feed self url w) as [[e|fs] w1]; [done|].
  by destruct (feeds_of self rest w1) as [[e|more] w2].
Qed.

(** The first fetch that raises ends the comprehension with its error. *)
Lemma feeds_of_raises `{Outside} (self : ThingSpeak) (fetched : list string) (url : string)
    (rest : list string) (w w1 w' : World) (records : list feed) (e : exn) :
  feeds_of self fetched w = (inr records, w1) →
  get_feed self url w1 = (inl e, w') →
  feeds_of self (fetched ++ url :: rest) w = (inl e, w').
Proof.
  revert w records. induction fetched as [|u us IH]; intros w records Hdone Hfail.
  - cbn in Hdone. injection Hdone as <- <-. cbn [app]. by rewrite feeds_of_cons, Hfail.
  - cbn [app]. rewrite feeds_of_cons in Hdone |- *.
    destruct (get_feed self u w) as [[e0|fs] w0]; [done|].
    destruct (feeds_of self us w0) as [[e0|more] w2] eqn:Hus; [done|].
    injection Hdone as <- <-. by rewrite (IH w0 more Hus Hfail).
Qed.

Lemma feeds_of_effect `{Outside} (self : ThingSpeak) (us : list string) (w w' : World)
    (r : exn + list feed) :
  feeds_of self us w = (r, w') →
  bq_clients w' = bq_clients w ∧ bq_jobs w' = bq_jobs w.
Proof.
  revert w w' r. induction us as [|u us IH]; intros w w' r.
  - cbn. by intros [= <- <-].
  - rewrite feeds_of_cons.
    destruct (get_feed self u w) as [[e|fs] w1] eqn:Hget;
      apply get_feed_effect in Hget as (_ & _ & _ & _ & _ & Hc & Hj & _).
    { intros [= <- <-]. done. }
    destruct (feeds_of self us w1) as [[e|more] w2] eqn:Hus;
      apply IH in Hus as [Hc2 Hj2]; intros [= <- <-]; split; congruence.
Qed.

Lemma extract_run `{Outside} (w : World) :
  extract w =
    match get_keys_from_purple w with
    | (inr sensor, w0) =>
        match from_dict sensor with
        | inr ts => feeds ts w0
        | inl e => (inl e, w0)
        end
    | (inl e, w0) => (inl e, w0)
    end.
Proof.
  unfold extract. run. destruct (get_keys_from_purple w) as [[e|sensor] w0]; [done|].
  by destruct (from_dict sensor).
Qed.

(** The extract never touches the warehouse. *)
Lemma extract_effect `{Outside} (w w' : World) (r : exn + list feed) :
  extract w = (r, w') → bq_clients w' = bq_clients w ∧ bq_jobs w' = bq_jobs w.
Proof.
  rewrite extract_run.
  destruct (get_keys_from_purple w) as [[e|sensor] w0] eqn:Hkeys;
    apply get_keys_effect in Hkeys
      as (_ & _ & _ & _ & _ & _ & _ & _ & _ & Hc & Hj & _).
  { by intros [= <- <-]. }
  destruct (from_dict sensor) as [e|ts]; [by intros [= <- <-]|].
  intros [Hc' Hj']%feeds_of_effect. split; congruence.
Qed.

Lemma main_run `{Outside} (w : World) :
  main w =
    match extract w with
    | (inr data, w1) =>
        match load data
                (logger_debug ("Extracted " +:+ pretty (length data)
                               +:+ " feeds successfully") w1).2 with
        | (inr _, w2) => (inr "Success", w2)
        | (inl e, w2) => (inl e, w2)
        end
    | (inl e, w1) => (inl e, w1)
    end.
Proof.
  unfold main. run. destruct (extract w) as [[e|data] w1]; [done|].
  cbn [snd]. by destruct (load data _) as [[e|[]] w2].
Qed.

(** What [load] does to the world: one client, at most one job, and the
    job carries the rows it was given to the fixed table. *)
Lemma load_effect `{Outside} (data : list feed) (w w' : World) (r : exn + ()) :
  load data w = (r, w') →
  requested w' = requested w ∧ slept w' = slept w
  ∧ bq_clients w' = S (bq_clients w)
  ∧ (bq_jobs w' = bq_jobs w ∨ bq_jobs w' = bq_jobs w ++ [(destination, data)]).
Proof.
  unfold load, new_client, load_table_from_json. run.
  destruct bq_Client as [e|]; run.
  { intros [= <- <-]. cbn. split_and!; try done. by left. }
  destruct (bq_load_table_from_json destination data) as [e|]; run;
    intros [= <- <-]; cbn; split_and!; try done; by right.
Qed.

(** C3. When the credentials resolve and the four channel fetches return
    [r1], [r2], [r3] and [r4], in the order primary-A, secondary-A,
    primary-B, secondary-B in which they are made, [extract] returns the
    four sequences concatenated in that order, as many records as the
    four hold together. *)
Theorem extract_concatenates_in_pair_order `{Outside} (w w0 w1 w2 w3 w4 : World)
    (sensor : json) (ts : ThingSpeak) (r1 r2 r3 r4 : list feed) :
  get_keys_from_purple w = (inr sensor, w0) →
  from_dict sensor = inr ts →
  get_feed ts (feed_url (primary_id_a ts) (primary_key_a ts)) w0 = (inr r1, w1) →
  get_feed ts (feed_url (secondary_id_a ts) (secondary_key_a ts)) w1 = (inr r2, w2) →
  get_feed ts (feed_url (primary_id_b ts) (primary_key_b ts)) w2 = (inr r3, w3) →
  get_feed ts (feed_url (secondary_id_b ts) (secondary_key_b ts)) w3 = (inr r4, w4) →
  feeds ts w0 = (inr (r1 ++ r2 ++ r3 ++ r4), w4)
  ∧ extract w = (inr (r1 ++ r2 ++ r3 ++ r4), w4)
  ∧ length (r1 ++ r2 ++ r3 ++ r4) = (length r1 + length r2 + length r3 + length r4)%nat.
Proof.
  intros Hkeys Hts H1 H2 H3 H4.
  assert (feeds ts w0 = (inr (r1 ++ r2 ++ r3 ++ r4), w4)) as Hfeeds.
  { unfold feeds, urls, id_key_pairs. cbn [fmap list_fmap fst snd].
    rewrite feeds_of_cons, H1; cbn beta iota. rewrite feeds_of_cons, H2; cbn beta iota.
    rewrite feeds_of_cons, H3; cbn beta iota. rewrite feeds_of_cons, H4; cbn beta iota.
    cbn [feeds_of mret M_ret]. by rewrite app_nil_r. }
  split_and!; [done| |rewrite !length_app; lia].
  by rewrite extract_run, Hkeys, Hts.
Qed.

(** On the flaky network: two, one, no and one record, four in all. *)
Lemma extract_concatenates_in_pair_order_witness :
  extract (H:=flaky) boot =
    (inr (value [] flaky_primary_a ++ value [] flaky_secondary_a
          ++ value [] flaky_primary_b ++ value [] flaky_secondary_b),
     flaky_secondary_b.2)
  ∧ length (value [] flaky_primary_a) = 2%nat
  ∧ length (value [] flaky_secondary_a) = 1%nat
  ∧ length (value [] flaky_primary_b) = 0%nat
  ∧ length (value [] flaky_secondary_b) = 1%nat.
Proof.
  split.
  - exact (proj1 (proj2
             (extract_concatenates_in_pair_order (H:=flaky) boot
                flaky_keys.2 flaky_primary_a.2 flaky_secondary_a.2 flaky_primary_b.2
                flaky_secondary_b.2 (value JNull flaky_keys) demo_thingspeak
                (value [] flaky_primary_a) (value [] flaky_secondary_a)
                (value [] flaky_primary_b) (value [] flaky_secondary_b)
                (returned_eq JNull flaky_keys (eq_refl true <: returned flaky_keys = true))
                (eq_refl (@inr exn ThingSpeak demo_thingspeak)
                   <: from_dict (value JNull flaky_keys) = inr demo_thingspeak)
                (returned_eq [] flaky_primary_a
                   (eq_refl true <: returned flaky_primary_a = true))
                (returned_eq [] flaky_secondary_a
                   (eq_refl true <: returned flaky_secondary_a = true))
                (returned_eq [] flaky_primary_b
                   (eq_refl true <: returned flaky_primary_b = true))
                (returned_eq [] flaky_secondary_b
                   (eq_refl true <: returned flaky_secondary_b = true))))).
  - split_and!; vm_compute; reflexivity.
Defined.

(** C7. [extract] raises, and so returns no record, when the registry
    fetch raises, when the registry answer makes no [ThingSpeak], and
    when, after any number of channel fetches that returned, the next one
    raises; the error is the one of the step that failed. [main] then
    raises the same error without a BigQuery client or a load job. *)
Theorem extract_all_or_nothing `{Outside} (w w' : World) (e : exn) :
  (get_keys_from_purple w = (inl e, w') → extract w = (inl e, w'))
  ∧ (∀ sensor,
       get_keys_from_purple w = (inr sensor, w') → from_dict sensor = inl e →
       extract w = (inl e, w'))
  ∧ (∀ sensor w0 ts fetched url rest records w1,
       get_keys_from_purple w = (inr sensor, w0) → from_dict sensor = inr ts →
       urls ts = fetched ++ url :: rest →
       feeds_of ts fetched w0 = (inr records, w1) →
       get_feed ts url w1 = (inl e, w') →
       extract w = (inl e, w'))
  ∧ (extract w = (inl e, w') →
       main w = (inl e, w')
       ∧ bq_clients w' = bq_clients w ∧ bq_jobs w' = bq_jobs w).
Proof.
  split_and!.
  - intros Hkeys. by rewrite extract_run, Hkeys.
  - intros sensor Hkeys Hts. by rewrite extract_run, Hkeys, Hts.
  - intros sensor w0 ts fetched url rest records w1 Hkeys Hts Hurls Hdone Hfail.
    rewrite extract_run, Hkeys, Hts. unfold feeds. rewrite Hurls.
    by eapply feeds_of_raises.
  - intros Hextract. split; [by rewrite main_run, Hextract|].
    by eapply extract_effect.
Qed.

(** On the broken network the third channel answers 500 three times:
    the records of the first two channels are dropped and nothing is
    loaded. *)
Lemma extract_all_or_nothing_witness :
  extract (H:=broken) boot = (inl (HTTPError 500), broken_primary_b.2)
  ∧ main (H:=broken) boot = (inl (HTTPError 500), broken_primary_b.2)
  ∧ bq_clients broken_primary_b.2 = bq_clients boot
  ∧ bq_jobs broken_primary_b.2 = bq_jobs boot.
Proof.
  pose proof (extract_all_or_nothing (H:=broken) boot broken_primary_b.2 (HTTPError 500))
    as (_ & _ & Hchannel & Hmain).
  assert (extract (H:=broken) boot = (inl (HTTPError 500), broken_primary_b.2))
    as Hextract.
  { exact (Hchannel (value JNull broken_keys) broken_keys.2 demo_thingspeak
             [ feed_url (primary_id_a demo_thingspeak) (primary_key_a demo_thingspeak);
               feed_url (secondary_id_a demo_thingspeak) (secondary_key_a demo_thingspeak) ]
             (feed_url (primary_id_b demo_thingspeak) (primary_key_b demo_thingspeak))
             [ feed_url (secondary_id_b demo_thingspeak) (secondary_key_b demo_thingspeak) ]
             (value [] broken_fetched) broken_fetched.2
             (returned_eq JNull broken_keys (eq_refl true <: returned broken_keys = true))
             (eq_refl (@inr exn ThingSpeak demo_thingspeak)
                <: from_dict (value JNull broken_keys) = inr demo_thingspeak)
             eq_refl
             (returned_eq [] broken_fetched
                (eq_refl true <: returned broken_fetched = true))
             (raised_eq broken_primary_b (HTTPError 500)
                (eq_refl (Some (HTTPError 500))
                   <: raised broken_primary_b = Some (HTTPError 500)))). }
  split; [exact Hextract | exact (Hmain Hextract)].
Defined.

(** C9. [main] runs [extract], logs the number of records and runs [load]
    on them: it raises the error of [extract] when that raises, the error
    of [load] when that raises, and returns "Success" when both return.
    Nothing is tried twice: no request follows the extract, at most one
    client is made and at most one job is submitted, with the extracted
    rows. *)
Theorem main_extracts_then_loads `{Outside} (w : World) :
  (∀ e w1, extract w = (inl e, w1) → main w = (inl e, w1))
  ∧ (∀ data w1 e w2,
       extract w = (inr data, w1) →
       load data (logger_debug ("Extracted " +:+ pretty (length data)
                                +:+ " feeds successfully") w1).2 = (inl e, w2) →
       main w = (inl e, w2))
  ∧ (∀ data w1 w2,
       extract w = (inr data, w1) →
       load data (logger_debug ("Extracted " +:+ pretty (length data)
                                +:+ " feeds successfully") w1).2 = (inr (), w2) →
       main w = (inr "Success", w2))
  ∧ (∀ r w',
       main w = (r, w') →
       requested w' = requested (extract w).2
       ∧ slept w' = slept (extract w).2
       ∧ (bq_clients w' ≤ S (bq_clients w))%nat
       ∧ (bq_jobs w' = bq_jobs w
          ∨ ∃ data, (extract w).1 = inr data
                    ∧ bq_jobs w' = bq_jobs w ++ [(destination, data)])).
Proof.
  split_and!.
  - intros e w1 Hextract. by rewrite main_run, Hextract.
  - intros data w1 e w2 Hextract Hload. by rewrite main_run, Hextract, Hload.
  - intros data w1 w2 Hextract Hload. by rewrite main_run, Hextract, Hload.
  - intros r w'. rewrite main_run.
    destruct (extract w) as [[e|data] w1] eqn:Hextract;
      apply extract_effect in Hextract as [Hc Hj]; cbn [fst snd].
    { intros [= <- <-]. split_and!; [done|done|lia|by left]. }
    destruct (load data _) as [r' w2] eqn:Hload.
    apply load_effect in Hload as (Hreq & Hsl & Hc2 & Hj2). cbn in Hreq, Hsl, Hc2, Hj2.
    intros Hmain.
    assert (w' = w2) as -> by (destruct r' as [?|[]]; by injection Hmain).
    rewrite Hreq, Hsl, Hc2, Hc. split_and!; [done|done|lia|].
    destruct Hj2 as [-> | ->]; [left | right; exists data]; by rewrite Hj.
Qed.

(** On the flaky network, with a warehouse that takes the rows. *)
Lemma main_extracts_then_loads_witness :
  main (H:=flaky) boot = (inr "Success", flaky_load.2)
  ∧ length (bq_jobs flaky_load.2) = 1%nat.
Proof.
  split.
  - exact (proj1 (proj2 (proj2 (main_extracts_then_loads (H:=flaky) boot)))
             (value [] flaky_extract) flaky_extract.2 flaky_load.2
             (returned_eq [] flaky_extract
                (eq_refl true <: returned flaky_extract = true))
             (returned_unit flaky_load (eq_refl true <: returned flaky_load = true))).
  - vm_compute. reflexivity.
Defined.

(** * Further properties of the code *)

(** ** The transform of get_feed on malformed answers *)

(** X1. What lines 55 to 59 of [get_feed] raise on an answer that is not a
    channel answer, in the order in which the code meets the problems: an
    answer that is no object is a [TypeError]; a missing [channel] is a
    [KeyError]; a [channel] that is no object is an [AttributeError]; a
    channel without [name], then an answer without [feeds], are
    [KeyError]s; and one element of [feeds] that is no object makes the
    whole answer a [TypeError], whatever the elements before it. *)
Theorem records_of_response_errors (r : gmap string json) :
  (∀ v, (∀ o, v ≠ JObj o) → records_of_response v = inl TypeError)
  ∧ (r !! "channel" = None → records_of_response (JObj r) = inl (KeyError "channel"))
  ∧ (∀ c, r !! "channel" = Some c → (∀ o, c ≠ JObj o) →
       records_of_response (JObj r) = inl AttributeError)
  ∧ (∀ ch, r !! "channel" = Some (JObj ch) → ch !! "name" = None →
       records_of_response (JObj r) = inl (KeyError "name"))
  ∧ (∀ ch name, r !! "channel" = Some (JObj ch) → ch !! "name" = Some name →
       r !! "feeds" = None →
       records_of_response (JObj r) = inl (KeyError "feeds"))
  ∧ (∀ ch name fs bad rest,
       r !! "channel" = Some (JObj ch) → ch !! "name" = Some name →
       r !! "feeds" = Some (JList ((JObj <$> fs) ++ bad :: rest)) →
       (∀ o, bad ≠ JObj o) →
       records_of_response (JObj r) = inl TypeError).
Proof.
  split_and!.
  - intros v Hv. destruct v as [| | | | | |o]; [reflexivity..|]. destruct (Hv o eq_refl).
  - intros Hch. unfold records_of_response, getitem. by rewrite Hch.
  - intros c Hch Hc. unfold records_of_response, getitem. rewrite Hch.
    cbn [mbind exn_bind]. destruct c as [| | | | | |o]; [reflexivity..|].
    destruct (Hc o eq_refl).
  - intros ch Hch Hname. unfold records_of_response, getitem. rewrite Hch.
    cbn [mbind exn_bind items]. by rewrite Hname.
  - intros ch name Hch Hname Hfeeds. unfold records_of_response, getitem.
    rewrite Hch. cbn [mbind exn_bind items]. by rewrite Hname, Hfeeds.
  - intros ch name fs bad rest Hch Hname Hfeeds Hbad.
    unfold records_of_response, getitem.
    rewrite Hch. cbn [mbind exn_bind items]. rewrite Hname, Hfeeds.
    cbn [mbind exn_bind iter].
    clear Hfeeds.
    induction fs as [|f fs IH]; cbn [fmap list_fmap app merge_feeds].
    + destruct bad as [| | | | | |o]; [reflexivity..|]. destruct (Hbad o eq_refl).
    + change (list_fmap feed json JObj fs) with (JObj <$> fs). by rewrite IH.
Qed.

(** ** The records *)

Lemma field_names_no_name (ch : gmap string json) : field_names ch !! "name" = None.
Proof.
  destruct (field_names ch !! "name") as [v|] eqn:Hv; [|done].
  apply field_names_lookup in Hv as (k & Heq & _ & _).
  apply (f_equal String.length) in Heq. rewrite string_length_app in Heq.
  cbn in Heq. lia.
Qed.

(** X2. A record holds every key of its reading with the value of the
    reading, the field names never hold the key [name], so a record
    holds the display name of the channel under [name] unless the
    reading has a key [name] of its own; and the keys of a record are
    those of the reading, of the field names, and [name]. *)
Theorem record_keeps_reading_and_name (name : json) (ch f : gmap string json) :
  f ⊆ merged name ch f
  ∧ field_names ch !! "name" = None
  ∧ (f !! "name" = None → merged name ch f !! "name" = Some name)
  ∧ dom (merged name ch f) = dom f ∪ dom (field_names ch) ∪ {[ "name" ]}.
Proof.
  split_and!.
  - apply map_subseteq_spec. intros k v Hk. by rewrite merged_lookup, Hk.
  - apply field_names_no_name.
  - intros Hf. by rewrite merged_lookup, Hf, field_names_no_name.
  - unfold merged, dict_update. rewrite !dom_union_L, dom_empty_L, dom_singleton_L.
    by rewrite (right_id_L ∅ (∪)), (assoc_L (∪)).
Qed.

(** ** The fetches on answers that parse and are not what is expected *)

Lemma get_feed_attempt_bad_body `{Outside} (self : ThingSpeak) (url : string) (w : World)
    (status : Z) (j : json) (e : exn) :
  http_get (requested w) (url +:+ "&days=3")
    = inr {| status_code := status; body := Some j |} →
  ¬ (400 ≤ status < 600) → records_of_response j = inl e →
  get_feed_attempt self url w =
    (inl e, {| requested := requested w ++ [url +:+ "&days=3"];
               log := log w ++ [fetching_feeds];
               slept := slept w; bq_clients := bq_clients w; bq_jobs := bq_jobs w |}).
Proof.
  intros Hget Hstatus Hbad. unfold get_feed_attempt. run. rewrite Hget. run.
  unfold raise_for_status. cbn [status_code]. rewrite decide_False by done. run.
  unfold response_json. cbn [body]. run. rewrite Hbad. reflexivity.
Qed.

(** X3. An answer that parses and is no channel answer is retried like a
    network failure: when every request for the channel is answered
    without a client or server error by the same body, and the transform
    raises [e] on that body, [get_feed] raises [e] after three requests
    and sleeps of 1 and 5 seconds, with three opening entries in the
    log. *)
Theorem get_feed_retries_bad_body `{Outside} (self : ThingSpeak) (url : string)
    (w : World) (status : Z) (j : json) (e : exn) :
  (∀ history, http_get history (url +:+ "&days=3")
                = inr {| status_code := status; body := Some j |}) →
  ¬ (400 ≤ status < 600) → records_of_response j = inl e →
  get_feed self url w =
    (inl e, {| requested := requested w ++ replicate 3 (url +:+ "&days=3");
               log := log w ++ replicate 3 fetching_feeds;
               slept := slept w ++ [1; 5];
               bq_clients := bq_clients w; bq_jobs := bq_jobs w |}).
Proof.
  intros Hget Hstatus Hbad. unfold get_feed.
  pose proof (get_feed_attempt_bad_body self url w status j e (Hget _) Hstatus Hbad)
    as H1.
  match type of H1 with
  | _ = (_, ?w1) =>
      pose proof (get_feed_attempt_bad_body self url (sleep 1 w1) status j e (Hget _)
                    Hstatus Hbad) as H2
  end.
  rewrite (retry_third_attempt _ _ _ _ _ _ H1 H2).
  rewrite (get_feed_attempt_bad_body self url _ status j e (Hget _) Hstatus Hbad).
  cbn. by rewrite <- ?app_assoc.
Qed.

Lemma get_feed_retries_bad_body_witness :
  get_feed (H:=mute) demo_thingspeak url_primary_a boot =
    (inl (KeyError "channel"),
     {| requested := requested boot ++ replicate 3 (url_primary_a +:+ "&days=3");
        log := log boot ++ replicate 3 fetching_feeds;
        slept := slept boot ++ [1; 5];
        bq_clients := bq_clients boot; bq_jobs := bq_jobs boot |}).
Proof.
  apply (get_feed_retries_bad_body (H:=mute) demo_thingspeak url_primary_a boot 200
           (JObj mute_body) (KeyError "channel")).
  - intros history. reflexivity.
  - intros [? ?]. lia.
  - vm_compute. reflexivity.
Defined.

Lemma get_keys_attempt_no_sensor `{Outside} (w : World) (status : Z)
    (r : gmap string json) :
  http_get (requested w) purple_url
    = inr {| status_code := status; body := Some (JObj r) |} →
  ¬ (400 ≤ status < 600) →
  get_keys_from_purple_attempt w =
    (getitem (JObj r) "sensor",
     {| requested := requested w ++ [purple_url];
        log := log w ++ [fetching_keys; retrieved_keys];
        slept := slept w; bq_clients := bq_clients w; bq_jobs := bq_jobs w |}).
Proof.
  intros Hget Hstatus. unfold get_keys_from_purple_attempt. run. rewrite Hget. run.
  unfold raise_for_status. cbn [status_code]. rewrite decide_False by done. run.
  unfold response_json. cbn [body]. run. cbn. by rewrite <- ?app_assoc.
Qed.

(** X4. When the first request to the registry is answered without a
    client or server error by an object that has a [sensor],
    [get_keys_from_purple] returns that member after this one request,
    without a sleep, with its two entries in the log. *)
Theorem get_keys_from_purple_first_try `{Outside} (w : World) (status : Z)
    (r : gmap string json) (sensor : json) :
  http_get (requested w) purple_url
    = inr {| status_code := status; body := Some (JObj r) |} →
  ¬ (400 ≤ status < 600) → r !! "sensor" = Some sensor →
  get_keys_from_purple w =
    (inr sensor, {| requested := requested w ++ [purple_url];
                    log := log w ++ [fetching_keys; retrieved_keys];
                    slept := slept w;
                    bq_clients := bq_clients w; bq_jobs := bq_jobs w |}).
Proof.
  intros Hget Hstatus Hsensor. unfold get_keys_from_purple.
  change (retry 3 1 5 ?f) with (retry_loop f 2 1 5). rewrite retry_loop_run.
  erewrite get_keys_attempt_no_sensor by done. cbn [getitem]. by rewrite Hsensor.
Qed.

Lemma get_keys_from_purple_first_try_witness :
  get_keys_from_purple (H:=flaky) boot =
    (inr (JObj demo_sensor),
     {| requested := requested boot ++ [purple_url (H:=flaky)];
        log := log boot ++ [fetching_keys; retrieved_keys];
        slept := slept boot;
        bq_clients := bq_clients boot; bq_jobs := bq_jobs boot |}).
Proof.
  apply (get_keys_from_purple_first_try (H:=flaky) boot 200
           {[ "sensor" := JObj demo_sensor ]} (JObj demo_sensor)).
  - vm_compute. reflexivity.
  - intros [? ?]. lia.
  - vm_compute. reflexivity.
Defined.

(** X5. An answer of the registry without [sensor] is retried, and each
    attempt has logged that the keys were retrieved before it fails:
    when every request is answered without a client or server error by
    the same object and the object has no [sensor],
    [get_keys_from_purple] raises [KeyError] after three requests, and
    the log shows three times the opening and the closing entry. *)
Theorem get_keys_retries_missing_sensor `{Outside} (w : World) (status : Z)
    (r : gmap string json) :
  (∀ history, http_get history purple_url
                = inr {| status_code := status; body := Some (JObj r) |}) →
  ¬ (400 ≤ status < 600) → r !! "sensor" = None →
  get_keys_from_purple w =
    (inl (KeyError "sensor"),
     {| requested := requested w ++ replicate 3 purple_url;
        log := log w ++ [fetching_keys; retrieved_keys; fetching_keys; retrieved_keys;
                         fetching_keys; retrieved_keys];
        slept := slept w ++ [1; 5];
        bq_clients := bq_clients w; bq_jobs := bq_jobs w |}).
Proof.
  intros Hget Hstatus Hsensor. unfold get_keys_from_purple.
  assert (getitem (JObj r) "sensor" = inl (KeyError "sensor")) as Hitem
    by (cbn; by rewrite Hsensor).
  pose proof (get_keys_attempt_no_sensor w status r (Hget _) Hstatus) as H1.
  match type of H1 with
  | _ = (_, ?w1) =>
      pose proof (get_keys_attempt_no_sensor (sleep 1 w1) status r (Hget _) Hstatus)
        as H2
  end.
  rewrite Hitem in H1, H2.
  rewrite (retry_third_attempt _ _ _ _ _ _ H1 H2).
  rewrite (get_keys_attempt_no_sensor _ status r (Hget _) Hstatus), Hitem.
  cbn. by rewrite <- ?app_assoc.
Qed.

Lemma get_keys_retries_missing_sensor_witness :
  get_keys_from_purple (H:=mute) boot =
    (inl (KeyError "sensor"),
     {| requested := requested boot ++ replicate 3 (purple_url (H:=mute));
        log := log boot ++ [fetching_keys; retrieved_keys; fetching_keys; retrieved_keys;
                            fetching_keys; retrieved_keys];
        slept := slept boot ++ [1; 5];
        bq_clients := bq_clients boot; bq_jobs := bq_jobs boot |}).
Proof.
  apply (get_keys_retries_missing_sensor (H:=mute) boot 200 mute_body).
  - intros history. reflexivity.
  - intros [? ?]. lia.
  - vm_compute. reflexivity.
Defined.

(** X6. Credentials that cannot be built end the extract at once: when the
    first request to the registry is answered without a client or server
    error by an object whose [sensor] makes [from_dict] raise [e],
    [extract] raises [e] after that single request; nothing is retried
    and no channel is requested. *)
Theorem extract_stops_at_bad_credentials `{Outside} (w : World) (status : Z)
    (r : gmap string json) (sensor : json) (e : exn) :
  http_get (requested w) purple_url
    = inr {| status_code := status; body := Some (JObj r) |} →
  ¬ (400 ≤ status < 600) → r !! "sensor" = Some sensor → from_dict sensor = inl e →
  extract w =
    (inl e, {| requested := requested w ++ [purple_url];
               log := log w ++ [fetching_keys; retrieved_keys];
               slept := slept w;
               bq_clients := bq_clients w; bq_jobs := bq_jobs w |}).
Proof.
  intros Hget Hstatus Hsensor Hbad.
  rewrite extract_run. erewrite get_keys_from_purple_first_try by done.
  by rewrite Hbad.
Qed.

Lemma extract_stops_at_bad_credentials_witness :
  extract (H:=partial) boot =
    (inl TypeError,
     {| requested := requested boot ++ [purple_url (H:=partial)];
        log := log boot ++ [fetching_keys; retrieved_keys];
        slept := slept boot;
        bq_clients := bq_clients boot; bq_jobs := bq_jobs boot |}).
Proof.
  apply (extract_stops_at_bad_credentials (H:=partial) boot 200 partial_body
           (JObj partial_sensor) TypeError).
  - vm_compute. reflexivity.
  - intros [? ?]. lia.
  - vm_compute. reflexivity.
  - vm_compute. reflexivity.
Defined.

(** ** The cost of an extract *)

Lemma effort_none (w : World) : effort 0 w w.
Proof.
  exists [], []. rewrite !app_nil_r. cbn. split_and!; try done; lia.
Qed.

Lemma effort_then (k1 k2 : nat) (w w1 w2 : World) :
  effort k1 w w1 → effort k2 w1 w2 → effort (k1 + k2) w w2.
Proof.
  intros (a1 & p1 & Hr1 & Hl1 & Hs1 & Hf1 & Hp1 & Hsum1 & Hc1 & Hj1)
         (a2 & p2 & Hr2 & Hl2 & Hs2 & Hf2 & Hp2 & Hsum2 & Hc2 & Hj2).
  exists (a1 ++ a2), (p1 ++ p2).
  rewrite Hr2, Hr1, Hs2, Hs1, Hc2, Hc1, Hj2, Hj1, !length_app, <- !app_assoc.
  split_and!; try done; try lia.
  - by apply Forall_app.
  - rewrite foldr_app.
    assert (∀ (l : list Z) (z : Z), foldr Z.add z l = foldr Z.add 0 l + z) as Hshift.
    { induction l as [|x l IH]; intros z; cbn; [lia|]. rewrite IH. lia. }
    rewrite Hshift. lia.
Qed.

Lemma effort_of_pauses (n : nat) :
  (1 ≤ n ≤ 3)%nat →
  Forall (λ z, z = 1 ∨ z = 5) (take (n - 1) [1; 5])
  ∧ (length (take (n - 1) [1; 5]%Z) ≤ 2)%nat
  ∧ foldr Z.add 0 (take (n - 1) [1; 5]) ≤ 6.
Proof.
  intros Hn. assert (n = 1 ∨ n = 2 ∨ n = 3)%nat as [->|[->| ->]] by lia; cbn;
    split_and!; try lia; repeat (apply Forall_cons; split; [lia|]); apply Forall_nil_2.
Qed.

Lemma get_feed_effort `{Outside} (self : ThingSpeak) (url : string) (w w' : World)
    (r : exn + list feed) :
  get_feed self url w = (r, w') → effort 1 w w'.
Proof.
  intros (n & Hn & Hreq & _ & Hsl & Hc & Hj & _)%get_feed_effect.
  destruct (effort_of_pauses n Hn) as (Hf & Hp & Hsum).
  exists (replicate n (url +:+ "&days=3")), (take (n - 1) [1; 5]).
  rewrite length_replicate. change (6 * Z.of_nat 1) with 6.
  split_and!; try done; lia.
Qed.

Lemma get_keys_effort `{Outside} (w w' : World) (r : exn + json) :
  get_keys_from_purple w = (r, w') →
  effort 1 w w' ∧ (length (requested w) < length (requested w'))%nat.
Proof.
  intros (n & new & Hn & Hreq & _ & _ & _ & _ & Hsl & Hc & Hj & _)%get_keys_effect.
  destruct (effort_of_pauses n Hn) as (Hf & Hp & Hsum). split.
  - exists (replicate n purple_url), (take (n - 1) [1; 5]).
    rewrite length_replicate. change (6 * Z.of_nat 1) with 6.
    split_and!; try done; lia.
  - rewrite Hreq, length_app, length_replicate. lia.
Qed.

Lemma feeds_of_effort `{Outside} (self : ThingSpeak) (us : list string) (w w' : World)
    (r : exn + list feed) :
  feeds_of self us w = (r, w') → effort (length us) w w'.
Proof.
  revert w w' r. induction us as [|u us IH]; intros w w' r.
  - cbn. intros [= <- <-]. apply effort_none.
  - rewrite feeds_of_cons. cbn [length].
    destruct (get_feed self u w) as [[e|fs] w1] eqn:Hget;
      apply get_feed_effort in Hget.
    { intros [= <- <-]. apply (effort_then 1 (length us) w w1 w1); [done|].
      destruct (effort_none w1) as (a & p & Ha & ? & Hp & ? & ? & ? & ? & ?).
      exists a, p. split_and!; try done; lia. }
    destruct (feeds_of self us w1) as [[e|more] w2] eqn:Hus;
      apply IH in Hus; intros [= <- <-]; by apply (effort_then 1 (length us) w w1 w2).
Qed.

(** X7. One extract, however it ends, makes at least one and at most
    fifteen requests, sleeps at most ten times, one or five seconds each
    time and thirty seconds in all, and creates no BigQuery client and no
    load job. *)
Theorem extract_bounded_effort `{Outside} (w w' : World) (r : exn + list feed) :
  extract w = (r, w') →
  ∃ (asked : list string) (pauses : list Z),
    requested w' = requested w ++ asked ∧ (1 ≤ length asked ≤ 15)%nat
    ∧ slept w' = slept w ++ pauses
    ∧ Forall (λ z, z = 1 ∨ z = 5) pauses ∧ (length pauses ≤ 10)%nat
    ∧ foldr Z.add 0 pauses ≤ 30
    ∧ bq_clients w' = bq_clients w ∧ bq_jobs w' = bq_jobs w.
Proof.
  rewrite extract_run.
  destruct (get_keys_from_purple w) as [[e|sensor] w0] eqn:Hkeys;
    apply get_keys_effort in Hkeys as [Hkeys Hmore].
  - intros [= <- <-].
    destruct Hkeys as (a & p & Ha & Hla & Hp & Hf & Hlp & Hsum & Hc & Hj).
    exists a, p. rewrite Ha, length_app in Hmore. split_and!; try done; lia.
  - assert (∀ w'', effort 4 w0 w'' →
              ∃ asked pauses,
                requested w'' = requested w ++ asked ∧ (1 ≤ length asked ≤ 15)%nat
                ∧ slept w'' = slept w ++ pauses
                ∧ Forall (λ z, z = 1 ∨ z = 5) pauses ∧ (length pauses ≤ 10)%nat
                ∧ foldr Z.add 0 pauses ≤ 30
                ∧ bq_clients w'' = bq_clients w ∧ bq_jobs w'' = bq_jobs w) as Hall.
    { intros w'' Hfeeds.
      destruct (effort_then 1 4 w w0 w'' Hkeys Hfeeds)
        as (a & p & Ha & Hla & Hp & Hf & Hlp & Hsum & Hc & Hj).
      exists a, p. split_and!; try done; try lia.
      destruct Hfeeds as (a2 & _ & Ha2 & _).
      apply (f_equal length) in Ha, Ha2. rewrite length_app in Ha, Ha2. lia. }
    destruct (from_dict sensor) as [e|ts].
    + intros [= <- <-]. apply Hall.
      destruct (effort_none w0) as (a & p & Ha & ? & Hp & ? & ? & ? & ? & ?).
      exists a, p. split_and!; try done; lia.
    + intros Hfeeds. apply Hall. by apply feeds_of_effort in Hfeeds.
Qed.

Lemma extract_bounded_effort_witness :
  ∃ (asked : list string) (pauses : list Z),
    requested flaky_extract.2 = requested boot ++ asked ∧ (1 ≤ length asked ≤ 15)%nat
    ∧ slept flaky_extract.2 = slept boot ++ pauses
    ∧ Forall (λ z, z = 1 ∨ z = 5) pauses ∧ (length pauses ≤ 10)%nat
    ∧ foldr Z.add 0 pauses ≤ 30
    ∧ bq_clients flaky_extract.2 = bq_clients boot
    ∧ bq_jobs flaky_extract.2 = bq_jobs boot.
Proof.
  exact (extract_bounded_effort (H:=flaky) boot flaky_extract.2 flaky_extract.1
           (surjective_pairing flaky_extract)).
Defined.

(** ** load and main *)

Lemma load_run `{Outside} (data : list feed) (w : World) :
  load data w =
    match bq_Client with
    | Some e =>
        (inl e, {| requested := requested w;
                   log := log w ++ [(DEBUG, "Connecting to BigQuery")];
                   slept := slept w; bq_clients := S (bq_clients w);
                   bq_jobs := bq_jobs w |})
    | None =>
        match bq_load_table_from_json destination data with
        | Some e =>
            (inl e, {| requested := requested w;
                       log := log w ++ [(DEBUG, "Connecting to BigQuery");
                                        (DEBUG, "Connected to BigQuery Successfully")];
                       slept := slept w; bq_clients := S (bq_clients w);
                       bq_jobs := bq_jobs w ++ [(destination, data)] |})
        | None =>
            (inr (), {| requested := requested w;
                        log := log w ++ [(DEBUG, "Connecting to BigQuery");
                                         (DEBUG, "Connected to BigQuery Successfully");
                                         (DEBUG, "Loaded into BigQuery " +:+ destination
                                                 +:+ " successfully")];
                        slept := slept w; bq_clients := S (bq_clients w);
                        bq_jobs := bq_jobs w ++ [(destination, data)] |})
        end
    end.
Proof.
  unfold load, new_client, load_table_from_json. run.
  destruct bq_Client as [e|]; run; [done|].
  destruct (bq_load_table_from_json destination data) as [e|]; run;
    by rewrite <- ?app_assoc.
Qed.

(** X8. [load] raises only what the warehouse raises, and submits what it
    was given: it returns exactly when the client is made and the job, on
    the rows it was given and the fixed table, goes through; when the
    client is not made no job is submitted; and whatever happens it makes
    one client, no request and no sleep. An empty batch is submitted like
    any other. *)
Theorem load_fails_only_with_the_warehouse `{Outside} (data : list feed) (w : World) :
  (returned (load data w) = true ↔
     bq_Client = None ∧ bq_load_table_from_json destination data = None)
  ∧ (∀ e, bq_Client = Some e →
       (load data w).1 = inl e ∧ bq_jobs (load data w).2 = bq_jobs w)
  ∧ (bq_Client = None →
       bq_jobs (load data w).2 = bq_jobs w ++ [(destination, data)]
       ∧ ∀ e, bq_load_table_from_json destination data = Some e →
              (load data w).1 = inl e)
  ∧ requested (load data w).2 = requested w
  ∧ slept (load data w).2 = slept w
  ∧ bq_clients (load data w).2 = S (bq_clients w).
Proof.
  rewrite load_run. destruct bq_Client as [e|].
  { cbn. split_and!; try done.
    - split; [discriminate | by intros [? _]].
    - by intros e' [= ->]. }
  destruct (bq_load_table_from_json destination data) as [e|]; cbn.
  - split_and!; try done.
    + split; [discriminate | by intros [_ ?]].
    + split; [done | by intros e' [= ->]].
  - split_and!; try done.
Qed.

(** X9. A run that returns has loaded what it extracted: when [main]
    returns, it returns "Success", [extract] returned some rows, one
    client was made and one job submitted, with exactly those rows to the
    fixed table, and the four last entries of the log are the count of
    the extracted rows and the three entries of [load]. *)
Theorem main_success_loads_the_extract `{Outside} (w w' : World) (s : string) :
  main w = (inr s, w') →
  s = "Success"
  ∧ ∃ data w1,
      extract w = (inr data, w1)
      ∧ requested w' = requested w1 ∧ slept w' = slept w1
      ∧ bq_clients w' = S (bq_clients w)
      ∧ bq_jobs w' = bq_jobs w ++ [(destination, data)]
      ∧ log w' = log w1 ++
          [ (DEBUG, "Extracted " +:+ pretty (length data) +:+ " feeds successfully");
            (DEBUG, "Connecting to BigQuery");
            (DEBUG, "Connected to BigQuery Successfully");
            (DEBUG, "Loaded into BigQuery " +:+ destination +:+ " successfully") ].
Proof.
  rewrite main_run.
  destruct (extract w) as [[e|data] w1] eqn:Hextract; [discriminate|].
  apply extract_effect in Hextract as [Hc Hj].
  rewrite load_run. destruct bq_Client as [e|]; [discriminate|].
  destruct (bq_load_table_from_json destination data) as [e|]; [discriminate|].
  intros [= <- <-]. split; [done|]. exists data, w1. cbn.
  rewrite Hc, Hj, <- ?app_assoc. done.
Qed.

Lemma main_success_loads_the_extract_witness :
  value "" flaky_main = "Success"
  ∧ ∃ data w1,
      extract (H:=flaky) boot = (inr data, w1)
      ∧ requested flaky_main.2 = requested w1 ∧ slept flaky_main.2 = slept w1
      ∧ bq_clients flaky_main.2 = S (bq_clients boot)
      ∧ bq_jobs flaky_main.2 = bq_jobs boot ++ [(destination, data)]
      ∧ log flaky_main.2 = log w1 ++
          [ (DEBUG, "Extracted " +:+ pretty (length data) +:+ " feeds successfully");
            (DEBUG, "Connecting to BigQuery");
            (DEBUG, "Connected to BigQuery Successfully");
            (DEBUG, "Loaded into BigQuery " +:+ destination +:+ " successfully") ].
Proof.
  exact (main_success_loads_the_extract (H:=flaky) boot flaky_main.2 (value "" flaky_main)
           (returned_eq "" flaky_main (eq_refl true <: returned flaky_main = true))).
Defined.

(** ** The requests of the channel fetches *)

Lemma feeds_of_requests `{Outside} (self : ThingSpeak) (us : list string) (w w' : World)
    (r : exn + list feed) :
  feeds_of self us w = (r, w') →
  ∃ ns : list nat,
    (length ns ≤ length us)%nat ∧ Forall (λ n, 1 ≤ n ≤ 3)%nat ns
    ∧ requested w' =
        requested w ++ concat (zip_with (λ n u, replicate n (u +:+ "&days=3")) ns us)
    ∧ (∀ records, r = inr records → length ns = length us).
Proof.
  revert w w' r. induction us as [|u us IH]; intros w w' r.
  - cbn. intros [= <- <-]. exists []. cbn. by rewrite app_nil_r.
  - rewrite feeds_of_cons.
    destruct (get_feed self u w) as [[e|fs] w1] eqn:Hget;
      apply get_feed_effect in Hget as (n & Hn & Hreq & _).
    { intros [= <- <-]. exists [n]. cbn. rewrite app_nil_r.
      split_and!; [lia | by apply Forall_singleton | done | done]. }
    destruct (feeds_of self us w1) as [r' w2] eqn:Hus.
    apply IH in Hus as (ns & Hlen & Hns & Hreq' & Hall).
    intros Hrun. assert (w' = w2) as -> by (destruct r'; by injection Hrun).
    exists (n :: ns). cbn. rewrite Hreq', Hreq, <- app_assoc.
    split_and!; [lia | by apply Forall_cons | done |].
    intros records ->. destruct r' as [e|more]; [done|]. by rewrite (Hall more).
Qed.

(** X10. The channel fetches ask for nothing but the four URLs of [urls],
    each with the three-day window appended, in the order of [urls],
    each one to three times in a row and never again afterwards; when
    [feeds] returns all four channels were asked. *)
Theorem feeds_requests_channels_in_order `{Outside} (self : ThingSpeak) (w w' : World)
    (r : exn + list feed) :
  feeds self w = (r, w') →
  ∃ ns : list nat,
    (length ns ≤ 4)%nat ∧ Forall (λ n, 1 ≤ n ≤ 3)%nat ns
    ∧ requested w' =
        requested w
        ++ concat (zip_with (λ n u, replicate n (u +:+ "&days=3")) ns (urls self))
    ∧ (∀ records, r = inr records → length ns = 4%nat).
Proof. intros Hrun. by apply feeds_of_requests in Hrun. Qed.

Lemma feeds_requests_channels_in_order_witness :
  ∃ ns : list nat,
    (length ns ≤ 4)%nat ∧ Forall (λ n, 1 ≤ n ≤ 3)%nat ns
    ∧ requested (feeds (H:=flaky) demo_thingspeak flaky_keys.2).2 =
        requested flaky_keys.2
        ++ concat (zip_with (λ n u, replicate n (u +:+ "&days=3")) ns
                     (urls (H:=flaky) demo_thingspeak))
    ∧ (∀ records, (feeds (H:=flaky) demo_thingspeak flaky_keys.2).1 = inr records →
         length ns = 4%nat).
Proof.
  exact (feeds_requests_channels_in_order (H:=flaky) demo_thingspeak flaky_keys.2
           (feeds (H:=flaky) demo_thingspeak flaky_keys.2).2
           (feeds (H:=flaky) demo_thingspeak flaky_keys.2).1
           (surjective_pairing (feeds (H:=flaky) demo_thingspeak flaky_keys.2))).
Defined.
